(** * The evaluation step [pipeline_scripts/evaluate/script.py]

    A shallow embedding of the script and of the parts of its runtime that
    its behaviour hangs on: Python values, [json.dumps], the [%f] conversion
    used by the log line, a file system, [tarfile] extraction, [pathlib]'s
    [mkdir] and the [logging] handler.

    Scope of the model.  Paths are lists of components below the root; there
    are no symbolic links, permissions, quotas or other processes.  The
    members of an archive are regular files and directories with relative
    names (no links, no devices, no absolute names).  [extractall] and
    [script] take the name of a member as the components of the path below
    the extraction directory that the member lands on, which is what a name
    is in an archive packed from a directory tree.  [extractall_raw] and
    [script_raw] take the name as it is stored and leave the components [.]
    and [..] to the operating system, as [tarfile] does when no extraction
    filter is set.  On plain names the two readings agree
    ([script_raw_plain], [load_stage_raw_plain]), so that what is stated for
    [script] holds for the run on an archive with such names.  What a failed
    run has left of the output location is stated for [script_raw].  The
    bytes of a file are
    represented by what the script's decoders make of them (see [blob]); a
    pickle payload that runs code of its own while loading is outside the
    model.  A Python [str] is a [string] whose characters are the code points
    below 256. *)

From Stdlib Require Import ZArith String Ascii DecimalString.
From Stdlib Require Import Floats.PrimFloat Floats.FloatOps Floats.SpecFloat.
From stdpp Require Import base option list gmap strings.

Open Scope string_scope.
Open Scope Z_scope.

Set Default Proof Using "Type".
Set Warnings "-register-all,-inexact-float".

(** ** Paths and exceptions *)

Abbreviation path := (list string).

(** The exceptions the script can die of.  None of them is [SystemExit]. *)
Inductive exn : Type :=
| CalledProcessError (returncode : Z)
| ImportError
| FileNotFoundError (p : path)
| NotADirectoryError (p : path)
| IsADirectoryError (p : path)
| FileExistsError (p : path)
| ReadError
| UnpicklingError
| AttributeError (attr : string)
| KeyError (key : string)
| TypeError (msg : string)
| ValueError (msg : string)
| OverflowError.

Inductive result (A : Type) : Type :=
| Ok (a : A)
| Raise (e : exn).
Arguments Ok {A} a.
Arguments Raise {A} e.

(** ** Python values *)

(** [PDict] keeps insertion order, which [json.dumps] follows.  [PObj] is an
    instance of a class that is none of the above and defines no conversion
    of its own ([__float__], [__getitem__]): it only carries attributes. *)
Inductive pyval : Type :=
| PNone
| PBool (b : bool)
| PInt (n : Z)
| PFloat (x : float)
| PStr (s : string)
| PList (items : list pyval)
| PTuple (items : list pyval)
| PDict (entries : list (pyval * pyval))
| PObj (cls : string) (attrs : list (string * pyval)).

Definition type_name (v : pyval) : string :=
  match v with
  | PNone => "NoneType"
  | PBool _ => "bool"
  | PInt _ => "int"
  | PFloat _ => "float"
  | PStr _ => "str"
  | PList _ => "list"
  | PTuple _ => "tuple"
  | PDict _ => "dict"
  | PObj cls _ => cls
  end.

(** A [str] key is equal to a dictionary key only if that key is the same
    [str]. *)
Definition key_is (k : string) (key : pyval) : bool :=
  match key with
  | PStr s => bool_decide (s = k)
  | _ => false
  end.

Fixpoint dict_get (entries : list (pyval * pyval)) (k : string) : option pyval :=
  match entries with
  | [] => None
  | (key, v) :: rest => if key_is k key then Some v else dict_get rest k
  end.

Fixpoint attr_get (attrs : list (string * pyval)) (a : string) : option pyval :=
  match attrs with
  | [] => None
  | (name, v) :: rest => if bool_decide (name = a) then Some v else attr_get rest a
  end.

(** [obj.attr] *)
Definition py_getattr (obj : pyval) (a : string) : result pyval :=
  match obj with
  | PObj _ attrs =>
      match attr_get attrs a with
      | Some v => Ok v
      | None => Raise (AttributeError a)
      end
  | _ => Raise (AttributeError a)
  end.

(** [container[k]] for a [str] subscript [k] *)
Definition py_getitem (container : pyval) (k : string) : result pyval :=
  match container with
  | PDict entries =>
      match dict_get entries k with
      | Some v => Ok v
      | None => Raise (KeyError k)
      end
  | PList _ | PTuple _ | PStr _ =>
      Raise (TypeError (type_name container ++ " indices must be integers"))
  | _ => Raise (TypeError (type_name container ++ " object is not subscriptable"))
  end.

(** ** Decimal text of numbers *)

Module FloatText.

(** [int.__repr__] (without the limit newer interpreters put on the number
    of digits) *)
Definition int_repr (z : Z) : string := NilZero.string_of_int (Z.to_int z).

Fixpoint zeros (n : nat) : string :=
  match n with
  | O => ""
  | S n' => String "0" (zeros n')
  end.

Definition str_take (n : nat) (s : string) : string := substring 0 n s.
Definition str_drop (n : nat) (s : string) : string :=
  substring n (String.length s - n) s.

(** The sign of [d * 10^q - num / den], for [den > 0]. *)
Definition cmp_dec (d q num den : Z) : comparison :=
  if 0 <=? q then (d * 10 ^ q * den ?= num) else (d * den ?= num * 10 ^ (- q)).

(** The largest [d] with [d * 10^q <= num / den]. *)
Definition floor_dec (q num den : Z) : Z :=
  if 0 <=? q then num / (den * 10 ^ q) else (num * 10 ^ (- q)) / den.

(** The least [p' >= p] with [num / den < 10^p'], within [fuel] steps. *)
Fixpoint find_decpt (fuel : nat) (p num den : Z) : Z :=
  match fuel with
  | O => p
  | S fuel' =>
      match cmp_dec 1 p num den with
      | Gt => p
      | _ => find_decpt fuel' (p + 1) num den
      end
  end.

Fixpoint strip_zeros (fuel : nat) (d q : Z) : Z * Z :=
  match fuel with
  | O => (d, q)
  | S fuel' =>
      if (d mod 10 =? 0) && (0 <? d) then strip_zeros fuel' (d / 10) (q + 1)
      else (d, q)
  end.

(** The shortest decimal that reads back as the double [m * 2^e]
    (CPython's [repr] of a float): for a growing number of digits [k], the
    two [k]-digit decimals around the value are tried, and the one closest
    to it among those that round back to it is taken.  All quantities are
    fractions over [scale_den], in quarters of the unit in the last
    place. *)
Section shortest.
Variables (m : positive) (e : Z).

Definition scale_num (n : Z) : Z := if 2 <=? e then n * 2 ^ (e - 2) else n.
Definition scale_den : Z := if 2 <=? e then 1 else 2 ^ (2 - e).

Definition val_num : Z := scale_num (4 * Z.pos m).
Definition hi_num : Z := scale_num (4 * Z.pos m + 2).
Definition lo_num : Z :=
  scale_num (if (Z.pos m =? 2 ^ 52) && (-1074 <? e)
             then 4 * Z.pos m - 1 else 4 * Z.pos m - 2).

(** Does [d * 10^q] round (to nearest, ties to even) to [m * 2^e]? *)
Definition reads_back (d q : Z) : bool :=
  let even := Z.even (Z.pos m) in
  match cmp_dec d q lo_num scale_den, cmp_dec d q hi_num scale_den with
  | Gt, Lt => true
  | Eq, Lt => even
  | Gt, Eq => even
  | _, _ => false
  end.

Definition candidate (k p : Z) : option (Z * Z) :=
  let q := p - k in
  let d0 := floor_dec q val_num scale_den in
  let d1 := d0 + 1 in
  match reads_back d0 q, reads_back d1 q with
  | true, false => Some (d0, q)
  | false, true => Some (d1, q)
  | true, true =>
      match cmp_dec (d0 + d1) q (2 * val_num) scale_den with
      | Gt => Some (d0, q)
      | Lt => Some (d1, q)
      | Eq => Some (if Z.even d0 then d0 else d1, q)
      end
  | false, false => None
  end.

Fixpoint shortest_from (fuel : nat) (k p : Z) : Z * Z :=
  match fuel with
  | O => (floor_dec (p - 17) val_num scale_den, p - 17)
  | S fuel' =>
      match candidate k p with
      | Some dq => dq
      | None => shortest_from fuel' (k + 1) p
      end
  end.

(** The digits and the position of the decimal point: the value is
    [0.digits * 10^decpt]. *)
Definition shortest_digits : string * Z :=
  let l := Z.log2 val_num - Z.log2 scale_den in
  let p := find_decpt 8 ((l - 1) * 30103 / 100000 - 1) val_num scale_den in
  let '(d, q) := shortest_from 17 1 p in
  let '(d, q) := strip_zeros 20 d q in
  let ds := int_repr d in
  (ds, Z.of_nat (String.length ds) + q).
End shortest.

Definition exp_text (x : Z) : string :=
  let a := Z.abs x in
  (if x <? 0 then "-" else "+") ++ (if a <? 10 then "0" else "") ++ int_repr a.

Definition repr_finite (m : positive) (e : Z) : string :=
  let '(ds, decpt) := shortest_digits m e in
  let n := String.length ds in
  if (decpt <=? -4) || (16 <? decpt) then
    str_take 1 ds ++ (if (1 <? n)%nat then "." ++ str_drop 1 ds else "")
      ++ "e" ++ exp_text (decpt - 1)
  else if decpt <=? 0 then "0." ++ zeros (Z.to_nat (- decpt)) ++ ds
  else if Z.of_nat n <=? decpt then ds ++ zeros (Z.to_nat decpt - n) ++ ".0"
  else str_take (Z.to_nat decpt) ds ++ "." ++ str_drop (Z.to_nat decpt) ds.

Definition sign_text (s : bool) : string := if s then "-" else "".

(** [float.__repr__] *)
Definition float_repr (x : float) : string :=
  match Prim2SF x with
  | S754_zero s => sign_text s ++ "0.0"
  | S754_infinity s => sign_text s ++ "inf"
  | S754_nan => "nan"
  | S754_finite s m e => sign_text s ++ repr_finite m e
  end.

(** [num / den] rounded to the nearest integer, ties to even ([den > 0]). *)
Definition round_half_even (num den : Z) : Z :=
  let q := num / den in
  let r := num mod den in
  match 2 * r ?= den with
  | Lt => q
  | Gt => q + 1
  | Eq => if Z.even q then q else q + 1
  end.

Definition pad6 (z : Z) : string :=
  let s := int_repr z in zeros (6 - String.length s) ++ s.

Definition fixed6 (m : positive) (e : Z) : string :=
  let n := if 0 <=? e then Z.pos m * 2 ^ e * 10 ^ 6
           else round_half_even (Z.pos m * 10 ^ 6) (2 ^ (- e)) in
  int_repr (n / 10 ^ 6) ++ "." ++ pad6 (n mod 10 ^ 6).

(** The text of a double under [%f]: six digits after the point. *)
Definition sf_format_f (x : spec_float) : string :=
  match x with
  | S754_zero s => sign_text s ++ "0.000000"
  | S754_infinity s => sign_text s ++ "inf"
  | S754_nan => "nan"
  | S754_finite s m e => sign_text s ++ fixed6 m e
  end.

(** [float(n)] for an [int]: the nearest double, infinite when [n] is out
    of range (where Python raises [OverflowError]). *)
Definition int_to_float (n : Z) : spec_float := binary_normalize 53 1024 n 0 false.

End FloatText.

(** ** [%]-formatting, as far as the script uses it *)

(** The conversion of one argument under [%f]. *)
Definition format_f (v : pyval) : result string :=
  let of_int n :=
    match FloatText.int_to_float n with
    | S754_infinity _ => Raise OverflowError
    | x => Ok (FloatText.sf_format_f x)
    end in
  match v with
  | PFloat x => Ok (FloatText.sf_format_f (Prim2SF x))
  | PInt n => of_int n
  | PBool b => of_int (if b then 1 else 0)
  | _ => Raise (TypeError ("must be real number, not " ++ type_name v))
  end.

(** [fmt % args] for format strings whose only conversions are [%f] and
    [%%]. *)
Fixpoint percent_format (fmt : string) (args : list pyval) : result string :=
  match fmt with
  | EmptyString =>
      match args with
      | [] => Ok ""
      | _ => Raise (TypeError "not all arguments converted during string formatting")
      end
  | String "%" (String "f" rest) =>
      match args with
      | [] => Raise (TypeError "not enough arguments for format string")
      | a :: args' =>
          match format_f a with
          | Raise e => Raise e
          | Ok s =>
              match percent_format rest args' with
              | Ok t => Ok (s ++ t)
              | Raise e => Raise e
              end
          end
      end
  | String "%" (String "%" rest) =>
      match percent_format rest args with
      | Ok t => Ok (String "%" t)
      | Raise e => Raise e
      end
  | String "%" _ => Raise (ValueError "unsupported format character")
  | String c rest =>
      match percent_format rest args with
      | Ok t => Ok (String c t)
      | Raise e => Raise e
      end
  end.

(** ** [json.dumps] with its default arguments *)

Module Json.

Definition dquote : string := String "034" "".
Definition backslash : string := String "092" "".

Definition hex_digit (n : N) : ascii :=
  match String.get (N.to_nat n) "0123456789abcdef" with
  | Some c => c
  | None => "0"%char
  end.

(** [\uXXXX] for a code point below 65536 *)
Definition u_escape (n : N) : string :=
  backslash ++ "u"
    ++ String (hex_digit (n / 4096)) (String (hex_digit (n / 256 mod 16))
         (String (hex_digit (n / 16 mod 16)) (String (hex_digit (n mod 16)) "")))%N.

(** [ensure_ascii=True]: everything outside [' '..'~'], the quote and the
    backslash are escaped. *)
Definition escape_char (c : ascii) : string :=
  let n := N_of_ascii c in
  if (n =? 34)%N then backslash ++ dquote
  else if (n =? 92)%N then backslash ++ backslash
  else if (n =? 10)%N then backslash ++ "n"
  else if (n =? 13)%N then backslash ++ "r"
  else if (n =? 9)%N then backslash ++ "t"
  else if (n =? 8)%N then backslash ++ "b"
  else if (n =? 12)%N then backslash ++ "f"
  else if (n <? 32)%N || (126 <? n)%N then u_escape n
  else String c "".

Fixpoint escape (s : string) : string :=
  match s with
  | EmptyString => ""
  | String c rest => escape_char c ++ escape rest
  end.

Definition encode_str (s : string) : string := dquote ++ escape s ++ dquote.

(** [allow_nan=True] *)
Definition floatstr (x : float) : string :=
  match Prim2SF x with
  | S754_nan => "NaN"
  | S754_infinity false => "Infinity"
  | S754_infinity true => "-Infinity"
  | _ => FloatText.float_repr x
  end.

(** The text of a dictionary key ([skipkeys=False]). *)
Definition key_text (k : pyval) : result string :=
  match k with
  | PStr s => Ok s
  | PFloat x => Ok (floatstr x)
  | PBool true => Ok "true"
  | PBool false => Ok "false"
  | PNone => Ok "null"
  | PInt n => Ok (FloatText.int_repr n)
  | _ => Raise (TypeError
           ("keys must be str, int, float, bool or None, not " ++ type_name k))
  end.

Fixpoint join (sep : string) (parts : list string) : string :=
  match parts with
  | [] => ""
  | [s] => s
  | s :: rest => s ++ sep ++ join sep rest
  end.

Fixpoint encode (v : pyval) : result string :=
  match v with
  | PNone => Ok "null"
  | PBool true => Ok "true"
  | PBool false => Ok "false"
  | PInt n => Ok (FloatText.int_repr n)
  | PFloat x => Ok (floatstr x)
  | PStr s => Ok (encode_str s)
  | PList items | PTuple items =>
      match
        (fix each (l : list pyval) : result (list string) :=
           match l with
           | [] => Ok []
           | x :: l' =>
               match encode x with
               | Raise e => Raise e
               | Ok s =>
                   match each l' with
                   | Raise e => Raise e
                   | Ok ss => Ok (s :: ss)
                   end
               end
           end) items
      with
      | Raise e => Raise e
      | Ok ss => Ok ("[" ++ join ", " ss ++ "]")
      end
  | PDict entries =>
      match
        (fix each (l : list (pyval * pyval)) : result (list string) :=
           match l with
           | [] => Ok []
           | (k, x) :: l' =>
               match key_text k with
               | Raise e => Raise e
               | Ok ks =>
                   match encode x with
                   | Raise e => Raise e
                   | Ok s =>
                       match each l' with
                       | Raise e => Raise e
                       | Ok ss => Ok ((encode_str ks ++ ": " ++ s) :: ss)
                       end
                   end
               end
           end) entries
      with
      | Raise e => Raise e
      | Ok ss => Ok ("{" ++ join ", " ss ++ "}")
      end
  | PObj cls _ =>
      Raise (TypeError ("Object of type " ++ cls ++ " is not JSON serializable"))
  end.

Definition dumps (v : pyval) : result string := encode v.

End Json.


(** ** The file system *)

(** What the bytes of a regular file are to the script: a gzip-compressed
    tar stream with the given members in archive order, a pickle that loads
    to the given value, or bytes that are neither (written as text). *)
Inductive blob : Type :=
| Text (s : string)
| Pickled (v : pyval)
| TarGz (members : list (path * tar_entry))
with tar_entry : Type :=
| TDir
| TReg (content : blob).

Inductive node : Type :=
| Dir
| File (content : blob).

Definition parent (p : path) : path := take (length p - 1) p.

Definition is_file (n : option node) : bool :=
  match n with
  | Some (File _) => true
  | _ => false
  end.

Definition is_dir (n : option node) : bool :=
  match n with
  | Some Dir => true
  | _ => false
  end.

(** Is a strict prefix of [pre ++ rest] that extends [pre] a regular file? *)
Fixpoint through_file (fs : gmap path node) (pre rest : path) : bool :=
  match rest with
  | [] => false
  | c :: rest' => is_file (fs !! pre) || through_file fs (pre ++ [c])%list rest'
  end.

(** The error of resolving a path that has no entry: [ENOTDIR] when the
    walk meets a regular file, [ENOENT] otherwise. *)
Definition no_entry (fs : gmap path node) (p : path) : exn :=
  if through_file fs [] p then NotADirectoryError p else FileNotFoundError p.

(** A file system is a tree: the root is a directory and every entry lies in
    a directory. *)
Definition fs_tree (fs : gmap path node) : Prop :=
  is_dir (fs !! []) = true ∧ map_Forall (λ p _, is_dir (fs !! parent p) = true) fs.

#[global] Instance fs_tree_dec (fs : gmap path node) : Decision (fs_tree fs).
Proof. unfold fs_tree. apply _. Defined.

(** [child_name p k = Some c] when [k = p ++ [c]]. *)
Fixpoint child_name (p k : path) : option string :=
  match p, k with
  | [], [c] => Some c
  | a :: p', b :: k' => if bool_decide (a = b) then child_name p' k' else None
  | _, _ => None
  end.

Definition children (fs : gmap path node) (p : path) : list string :=
  omap (child_name p) (map_to_list fs).*1.

(** ** The process: a state and exception monad

    A statement of the script is a function from the world to an outcome
    and a world.  The operations below look an entry and its parent up
    directly: in a tree that is what resolving the path gives. *)

(** What a run does that can be seen from outside, in order. *)
Inductive event : Type :=
| Stdout (line : string)
| Stderr (text : string)
| Mkdir (p : path)
| Truncate (p : path)
| Store (p : path) (content : blob).

Record world : Type := World { files : gmap path node; trace : list event }.

Definition M (A : Type) : Type := world → result A * world.

Definition ret {A} (a : A) : M A := λ w, (Ok a, w).

Definition bind {A B} (m : M A) (k : A → M B) : M B :=
  λ w, match m w with
       | (Ok a, w') => k a w'
       | (Raise e, w') => (Raise e, w')
       end.

Definition raise {A} (e : exn) : M A := λ w, (Raise e, w).

Definition lift {A} (r : result A) : M A := λ w, (r, w).

#[global] Instance M_ret : MRet M := @ret.
#[global] Instance M_bind : MBind M := λ A B k m, bind m k.

(** [try: m  except <handles>: handler] *)
Definition try_except {A} (m : M A) (handles : exn → bool) (handler : exn → M A) : M A :=
  λ w, match m w with
       | (Raise e, w') => if handles e then handler e w' else (Raise e, w')
       | r => r
       end.

Definition is_FileExistsError (e : exn) : bool :=
  match e with FileExistsError _ => true | _ => false end.
Definition is_FileNotFoundError (e : exn) : bool :=
  match e with FileNotFoundError _ => true | _ => false end.
Definition is_OSError (e : exn) : bool :=
  match e with
  | FileNotFoundError _ | NotADirectoryError _ | IsADirectoryError _
  | FileExistsError _ => true
  | _ => false
  end.

Definition emit (ev : event) : M unit :=
  λ w, (Ok tt, World (files w) (trace w ++ [ev])).
Definition get_files : M (gmap path node) := λ w, (Ok (files w), w).
Definition lookup_path (p : path) : M (option node) := λ w, (Ok (files w !! p), w).
Definition put_node (p : path) (n : node) : M unit :=
  λ w, (Ok tt, World (<[p:=n]> (files w)) (trace w)).
Definition raise_no_entry {A} (p : path) : M A :=
  λ w, (Raise (no_entry (files w) p), w).

Fixpoint for_each {A} (l : list A) (body : A → M unit) : M unit :=
  match l with
  | [] => ret tt
  | x :: l' => body x ;; for_each l' body
  end.

(** [if not b: m] *)
Definition unless (b : bool) (m : M unit) : M unit := if b then ret tt else m.

(** *** [os] *)

Definition os_path_exists (p : path) : M bool :=
  here ← lookup_path p; ret (bool_decide (is_Some here)).

Definition os_path_isdir (p : path) : M bool :=
  here ← lookup_path p; ret (is_dir here).

(** [os.mkdir(p)] *)
Definition os_mkdir (p : path) : M unit :=
  here ← lookup_path p;
  match here with
  | Some _ => raise (FileExistsError p)
  | None =>
      up ← lookup_path (parent p);
      match up with
      | Some Dir => put_node p Dir ;; emit (Mkdir p)
      | Some (File _) => raise (NotADirectoryError p)
      | None => raise_no_entry p
      end
  end.

(** [os.listdir(p)]; the order of the names is that of the map. *)
Definition os_listdir (p : path) : M (list string) :=
  here ← lookup_path p;
  match here with
  | Some Dir => fs ← get_files; ret (children fs p)
  | Some (File _) => raise (NotADirectoryError p)
  | None => raise_no_entry p
  end.

(** [os.makedirs(name)], [exist_ok=False], on the reversed path. *)
Fixpoint makedirs_rev (rp : list string) : M unit :=
  match rp with
  | [] => os_mkdir []
  | _ :: head =>
      head_exists ← os_path_exists (rev head);
      unless head_exists
        (try_except (makedirs_rev head) is_FileExistsError (λ _, ret tt)) ;;
      os_mkdir (rev rp)
  end.

Definition os_makedirs (p : path) : M unit := makedirs_rev (rev p).

(** *** [open] *)

(** [open(p, 'w')] and [open(p, 'wb')]: the file is created or emptied. *)
Definition open_write (p : path) : M unit :=
  here ← lookup_path p;
  match here with
  | Some Dir => raise (IsADirectoryError p)
  | Some (File _) => put_node p (File (Text "")) ;; emit (Truncate p)
  | None =>
      up ← lookup_path (parent p);
      match up with
      | Some Dir => put_node p (File (Text "")) ;; emit (Truncate p)
      | Some (File _) => raise (NotADirectoryError p)
      | None => raise_no_entry p
      end
  end.

(** What was written to the open file [p] reaches it when it is closed. *)
Definition store (p : path) (content : blob) : M unit :=
  put_node p (File content) ;; emit (Store p content).

(** [open(p, 'rb')] and [read()] *)
Definition read_file (p : path) : M blob :=
  here ← lookup_path p;
  match here with
  | Some (File content) => ret content
  | Some Dir => raise (IsADirectoryError p)
  | None => raise_no_entry p
  end.

(** *** [pathlib.Path.mkdir] *)

(** [Path(p).mkdir(parents=False, exist_ok=exist_ok)] *)
Definition mkdir_plain (p : path) (exist_ok : bool) : M unit :=
  try_except (os_mkdir p) is_OSError
    (λ e, if is_FileNotFoundError e then raise e
          else isdir ← os_path_isdir p;
               if exist_ok && isdir then ret tt else raise e).

(** [Path(p).mkdir(parents=True, exist_ok=exist_ok)], on the reversed path:
    when [os.mkdir] finds no parent, the parent is made with
    [parents=True, exist_ok=True] and the directory with [parents=False]. *)
Fixpoint mkdir_parents_rev (rp : list string) (exist_ok : bool) : M unit :=
  try_except (os_mkdir (rev rp)) is_OSError
    (λ e, if is_FileNotFoundError e then
            match rp with
            | [] => raise e
            | _ :: rparent =>
                mkdir_parents_rev rparent true ;; mkdir_plain (rev rp) exist_ok
            end
          else isdir ← os_path_isdir (rev rp);
               if exist_ok && isdir then ret tt else raise e).

Definition pathlib_mkdir (p : path) (parents exist_ok : bool) : M unit :=
  if parents then mkdir_parents_rev (rev p) exist_ok else mkdir_plain p exist_ok.

(** *** [tarfile] *)

(** [tarfile.open(p, 'r:gz')] *)
Definition tarfile_open (p : path) : M (list (path * tar_entry)) :=
  here ← lookup_path p;
  match here with
  | Some (File (TarGz members)) => ret members
  | Some (File _) => raise ReadError
  | Some Dir => raise (IsADirectoryError p)
  | None => raise_no_entry p
  end.

(** [TarFile.makefile]: the member's bytes are written over what is there. *)
Definition makefile (targetpath : path) (content : blob) : M unit :=
  open_write targetpath ;; store targetpath content.

(** [TarFile.makedir]: the directory is made unless something of that name
    exists. *)
Definition makedir (targetpath : path) : M unit :=
  try_except (os_mkdir targetpath) is_FileExistsError (λ _, ret tt).

(** [TarFile._extract_member]: missing upper directories are made, then the
    member itself. *)
Definition extract_member (dest : path) (member : path * tar_entry) : M unit :=
  let targetpath := (dest ++ member.1)%list in
  let upperdirs := parent targetpath in
  upper_exists ← os_path_exists upperdirs;
  unless upper_exists (os_makedirs upperdirs) ;;
  match member.2 with
  | TReg content => makefile targetpath content
  | TDir => makedir targetpath
  end.

(** [tar.extractall(path=dest)] at the default [errorlevel]: the first
    failing member ends the extraction.  (Owner, mode and times of the
    extracted entries are set too; the model has no such attributes.) *)
Definition extractall (members : list (path * tar_entry)) (dest : path) : M unit :=
  for_each members (extract_member dest).

(** *** [cloudpickle] and [logging] *)

(** [cloudpickle.loads].  On bytes that are no pickle the loader raises;
    which exception that is depends on the bytes ([pickle.UnpicklingError],
    [EOFError] for an empty file, ...).  [UnpicklingError] stands for
    whichever it is: no statement below tells these exceptions apart. *)
Definition cloudpickle_loads (data : blob) : result pyval :=
  match data with
  | Pickled v => Ok v
  | _ => Raise UnpicklingError
  end.

(** A call of the module's logger, whose level is [DEBUG] and whose only
    handler writes the bare message to standard output.  The message is
    [msg % args] when there are arguments (a single non-empty mapping is
    used as the mapping operand, which no format of the script accepts
    either).  [Handler.emit] formats inside a [try]: when formatting raises,
    [handleError] reports on standard error and the call returns
    normally. *)
Definition logger_log (msg : string) (args : list pyval) : M unit :=
  match args with
  | [] => emit (Stdout msg)
  | _ =>
      match percent_format msg args with
      | Ok line => emit (Stdout line)
      | Raise _ => emit (Stderr "--- Logging error ---")
      end
  end.

Definition logger_debug (msg : string) (args : list pyval) : M unit := logger_log msg args.
Definition logger_info (msg : string) (args : list pyval) : M unit := logger_log msg args.

(** ** The script *)

(** What the run depends on besides the file system: the exit status of the
    [pip install] child process of line 3 and whether the imports of lines
    4 to 27 resolve. *)
Record host : Type := Host { pip_returncode : Z; imports_resolve : bool }.

Definition model_dir : path := ["opt"; "ml"; "processing"; "model"].
Definition model_path : path := (model_dir ++ ["model.tar.gz"])%list.
Definition model_pkl : path := (model_dir ++ ["model.pkl"])%list.
Definition output_dir : path := ["opt"; "ml"; "processing"; "evaluation"].
Definition evaluation_path : path := (output_dir ++ ["evaluation.json"])%list.

Definition rmse_message : string := "Writing out evaluation report with rmse: %f".

(** Lines 1 to 27: [subprocess.check_call] and the imports. *)
Definition bootstrap (h : host) : M unit :=
  if pip_returncode h =? 0 then
    if imports_resolve h then ret tt else raise ImportError
  else raise (CalledProcessError (pip_returncode h)).

(** Lines 41 to 45 *)
Definition extract : M unit :=
  tar ← tarfile_open model_path;
  extractall tar model_dir.

(** Lines 51 to 56 *)
Definition load_result_metrics : M pyval :=
  serialized_model ← read_file model_pkl;
  result ← lift (cloudpickle_loads serialized_model);
  lift (py_getattr result "metrics").

(** Lines 60 to 62 *)
Definition lookup_metrics (metrics : pyval) : M (pyval * pyval) :=
  logger_debug "extracting metrics." [] ;;
  mae ← lift (py_getitem metrics "valid-mae");
  rmse ← lift (py_getitem metrics "valid-rmse");
  ret (mae, rmse).

(** Lines 63 to 72 *)
Definition report_dict (mae rmse : pyval) : pyval :=
  PDict [(PStr "regression_metrics",
          PDict [(PStr "mae", PDict [(PStr "value", mae)]);
                 (PStr "rmse", PDict [(PStr "value", rmse)])])].

(** Lines 74 to 80.  The file is opened before [json.dumps] runs. *)
Definition build_and_write (mae rmse : pyval) : M unit :=
  pathlib_mkdir output_dir true true ;;
  logger_info rmse_message [rmse] ;;
  open_write evaluation_path ;;
  text ← lift (Json.dumps (report_dict mae rmse));
  store evaluation_path (Text text).

(** Lines 34 to 40 *)
Definition announce : M unit :=
  logger_debug "Starting evaluation." [] ;;
  names ← os_listdir model_dir;
  for_each names (λ file, logger_info file []) ;;
  logger_debug "Loading model." [].

(** Lines 47 to 48 *)
Definition relist : M unit :=
  names ← os_listdir model_dir;
  for_each names (λ file, logger_debug file []).

(** Lines 33 to 80 *)
Definition main : M unit :=
  announce ;;
  extract ;;
  relist ;;
  metrics ← load_result_metrics;
  found ← lookup_metrics metrics;
  build_and_write found.1 found.2.

Definition script (h : host) : M unit := bootstrap h ;; main.

(** The exit status of the interpreter: 0 when the script runs to its end,
    1 when an exception is not caught. *)
Definition exit_status {A} (r : result A) : Z :=
  match r with
  | Ok _ => 0
  | Raise _ => 1
  end.

(** *** The run up to a line

    The same statements as [script], cut after line 40, line 48, line 56 and
    line 62: they name the state in which an operation starts and the values
    it starts from. *)

Definition before_extract (h : host) : M unit := bootstrap h ;; announce.

Definition before_load (h : host) : M unit :=
  bootstrap h ;; announce ;; extract ;; relist.

Definition load_stage (h : host) : M pyval :=
  bootstrap h ;; announce ;; extract ;; relist ;; load_result_metrics.

Definition lookup_stage (h : host) : M (pyval * pyval) :=
  bootstrap h ;; announce ;; extract ;; relist ;;
  metrics ← load_result_metrics; lookup_metrics metrics.

(** The three operations of the component. *)
Inductive operation : Type := Extract | LoadMetrics | BuildAndWrite.

(** Operation [op] of the run of [script h] from [w] raises [e] and leaves
    the world [w1]. *)
Definition fails_in (op : operation) (h : host) (w : world) (e : exn) (w1 : world) : Prop :=
  match op with
  | Extract =>
      ∃ w0, before_extract h w = (Ok tt, w0) ∧ extract w0 = (Raise e, w1)
  | LoadMetrics =>
      ∃ w0, before_load h w = (Ok tt, w0)
            ∧ (metrics ← load_result_metrics; lookup_metrics metrics) w0 = (Raise e, w1)
  | BuildAndWrite =>
      ∃ found w0, lookup_stage h w = (Ok found, w0)
                  ∧ build_and_write found.1 found.2 w0 = (Raise e, w1)
  end.

(** The text of the report for the JSON texts of the two values. *)
Definition report_text (mae_text rmse_text : string) : string :=
  "{" ++ Json.encode_str "regression_metrics" ++ ": {"
      ++ Json.encode_str "mae" ++ ": {" ++ Json.encode_str "value" ++ ": " ++ mae_text ++ "}, "
      ++ Json.encode_str "rmse" ++ ": {" ++ Json.encode_str "value" ++ ": " ++ rmse_text ++ "}}}".

(** The lines of the trace that went to standard output. *)
Definition stdout_lines (evs : list event) : list string :=
  omap (λ ev, match ev with Stdout line => Some line | _ => None end) evs.

(** [p] is on the branch of [dest]: below it or above it. *)
Definition near (dest p : path) : Prop := dest `prefix_of` p ∨ p `prefix_of` dest.

(** How a file system changes: entries are created where there was none
    (at paths in [C]) and regular files are rewritten in place (at paths in
    [W]); nothing is removed and nothing changes kind. *)
Inductive fs_steps (C W : path → Prop) : gmap path node → gmap path node → Prop :=
| steps_done fs : fs_steps C W fs fs
| steps_create fs fs' p n :
    fs !! p = None → C p → fs_steps C W (<[p:=n]> fs) fs' → fs_steps C W fs fs'
| steps_rewrite fs fs' p content :
    is_file (fs !! p) = true → W p →
    fs_steps C W (<[p:=File content]> fs) fs' → fs_steps C W fs fs'.

(** Every run of [m] changes the file system by such steps only. *)
Definition mutates {A} (C W : path → Prop) (m : M A) : Prop :=
  ∀ w, fs_steps C W (files w) (files (m w).2).

(** The paths a regular member of the archive is written to. *)
Definition written (dest : path) (members : list (path * tar_entry)) (p : path) : Prop :=
  ∃ name content, (name, TReg content) ∈ members ∧ p = (dest ++ name)%list.

(** No path at all. *)
Definition nowhere : path → Prop := λ _, False.

(** The metrics mapping of the pickled result in the model directory: what
    lines 51 to 56 compute from the file system. *)
Definition pickled_metrics (fs : gmap path node) : result pyval :=
  match fs !! model_pkl with
  | Some (File content) =>
      match cloudpickle_loads content with
      | Ok v => py_getattr v "metrics"
      | Raise e => Raise e
      end
  | Some Dir => Raise (IsADirectoryError model_pkl)
  | None => Raise (no_entry fs model_pkl)
  end.

(** What the logging call of line 77 makes of the rmse value. *)
Definition rmse_log_event (rmse : pyval) : event :=
  match format_f rmse with
  | Ok s => Stdout ("Writing out evaluation report with rmse: " ++ s)
  | Raise _ => Stderr "--- Logging error ---"
  end.

(** Lines 60 to 80 *)
Definition report_stage (metrics : pyval) : M unit :=
  found ← lookup_metrics metrics; build_and_write found.1 found.2.


(** *** Sample inputs *)

Definition host_ok : host := Host 0 true.

(** A training result with the two validation metrics and one more. *)
Definition sample_result (mae rmse : pyval) : pyval :=
  PObj "Result"
    [("metrics", PDict [(PStr "train-rmse", PFloat 0.5); (PStr "valid-mae", mae);
                        (PStr "valid-rmse", rmse)]);
     ("checkpoint", PNone)].

Definition sample_archive (result : pyval) : blob :=
  TarGz [(["model.pkl"], TReg (Pickled result))].

(** The processing container before the run: the model directory, with the
    archive in it when there is one. *)
Definition sample_files (archive : option blob) : gmap path node :=
  list_to_map
    ([([], Dir); (["opt"], Dir); (["opt"; "ml"], Dir); (["opt"; "ml"; "processing"], Dir);
      (model_dir, Dir)]
     ++ match archive with
        | Some a => [(model_path, File a)]
        | None => []
        end)%list.

Definition sample_world (result : pyval) : world :=
  World (sample_files (Some (sample_archive result))) [].

(** The paths in the model directory. *)
Definition below_model : path → Prop := λ p, model_dir `prefix_of` p.

(** The file-system events of a list lie at paths in [P]. *)
Definition event_at (P : path → Prop) (ev : event) : Prop :=
  match ev with
  | Mkdir p | Truncate p | Store p _ => P p
  | Stdout _ | Stderr _ => True
  end.

(** Every run of [m] only adds events to the trace, and whatever it makes
    or writes is at a path in [P]. *)
Definition acts_at {A} (P : path → Prop) (m : M A) : Prop :=
  ∀ w, ∃ evs, trace (m w).2 = (trace w ++ evs)%list ∧ Forall (event_at P) evs.


(** The lines the script logs up to line 40, given the names in the model
    directory. *)
Definition announce_lines (names : list string) : list event :=
  (Stdout "Starting evaluation." :: map Stdout names ++ [Stdout "Loading model."])%list.

(** An event that changes the file system, as opposed to a line on standard
    output or standard error. *)
Definition fs_event (ev : event) : Prop :=
  match ev with
  | Mkdir _ | Truncate _ | Store _ _ => True
  | Stdout _ | Stderr _ => False
  end.

(** Every run of [m] only adds events to the trace and prints nothing. *)
Definition quiet {A} (m : M A) : Prop :=
  ∀ w, ∃ evs, trace (m w).2 = (trace w ++ evs)%list ∧ Forall fs_event evs.

(** Where a run may create entries, and where it may rewrite a regular
    file. *)
Definition may_create : path → Prop :=
  λ p, near model_dir p ∨ p `prefix_of` evaluation_path.
Definition may_rewrite : path → Prop :=
  λ p, below_model p ∨ p = evaluation_path.

(** ** Member names as the archive stores them

    [extract_member] above takes the name of a member as the components of
    the path below [dest] that the member lands on.  That is what a name is
    in an archive packed from a directory tree.  [tarfile] itself joins the
    name to [dest] as it is stored and leaves the path to the operating
    system, which stays in the directory at a component [.] and steps to
    its parent at a component [..]: the definitions below follow that, for
    relative names whose components are file names, [.] or [..] ([tarfile]
    without an extraction filter, the default of the interpreters before
    3.14).  On plain names the two agree ([extractall_raw_plain]). *)

(** An [OSError] names the path as the caller wrote it. *)
Definition with_filename (p : path) (e : exn) : exn :=
  match e with
  | FileNotFoundError _ => FileNotFoundError p
  | NotADirectoryError _ => NotADirectoryError p
  | IsADirectoryError _ => IsADirectoryError p
  | FileExistsError _ => FileExistsError p
  | _ => e
  end.

(** Path resolution from the directory [cur]: at a component [.] or [..]
    the entry reached so far has to be a directory, and [..] leaves it for
    its parent (the root is its own parent); any other component enters the
    entry of that name, which is looked up when it is left or used. *)
Fixpoint walk (fs : gmap path node) (cur : path) (raw : list string) : result path :=
  match raw with
  | [] => Ok cur
  | c :: rest =>
      if bool_decide (c = "..") || bool_decide (c = ".") then
        match fs !! cur with
        | Some Dir => walk fs (if bool_decide (c = "..") then parent cur else cur) rest
        | Some (File _) => Raise (NotADirectoryError cur)
        | None => Raise (no_entry fs cur)
        end
      else walk fs (cur ++ [c])%list rest
  end.

Definition resolve (p : path) : M path :=
  fs ← get_files;
  match walk fs [] p with
  | Ok q => ret q
  | Raise e => raise (with_filename p e)
  end.

(** A system call on the path [p] as written: the call is made on the entry
    [p] resolves to. *)
Definition at_path {A} (p : path) (call : path → M A) : M A :=
  q ← resolve p;
  try_except (call q) is_OSError (λ e, raise (with_filename p e)).

(** [os.path.exists]: [False] when [stat] fails. *)
Definition os_path_exists_raw (p : path) : M bool :=
  try_except (at_path p os_path_exists) is_OSError (λ _, ret false).

Definition os_mkdir_raw (p : path) : M unit := at_path p os_mkdir.

(** [os.makedirs(name)]: the heads are those of the name as written, and
    after making a missing head there is nothing left to make for a tail
    [.]. *)
Fixpoint makedirs_raw_rev (rp : list string) : M unit :=
  match rp with
  | [] => os_mkdir_raw []
  | c :: head =>
      head_exists ← os_path_exists_raw (rev head);
      if (head_exists : bool) then os_mkdir_raw (rev rp)
      else
        try_except (makedirs_raw_rev head) is_FileExistsError (λ _, ret tt) ;;
        if bool_decide (c = ".") then ret tt else os_mkdir_raw (rev rp)
  end.

Definition os_makedirs_raw (p : path) : M unit := makedirs_raw_rev (rev p).

(** [TarFile.makefile]: one [open], the bytes go to the file it opened. *)
Definition makefile_raw (targetpath : path) (content : blob) : M unit :=
  at_path targetpath (λ q, makefile q content).

Definition makedir_raw (targetpath : path) : M unit :=
  try_except (os_mkdir_raw targetpath) is_FileExistsError (λ _, ret tt).

(** [TarFile._extract_member] on [os.path.join(dest, name)]. *)
Definition extract_member_raw (dest : path) (member : path * tar_entry) : M unit :=
  let targetpath := (dest ++ member.1)%list in
  let upperdirs := parent targetpath in
  upper_exists ← os_path_exists_raw upperdirs;
  unless upper_exists (os_makedirs_raw upperdirs) ;;
  match member.2 with
  | TReg content => makefile_raw targetpath content
  | TDir => makedir_raw targetpath
  end.

Definition extractall_raw (members : list (path * tar_entry)) (dest : path) : M unit :=
  for_each members (extract_member_raw dest).

(** Lines 41 to 45, and the script with them, on member names as stored. *)
Definition extract_raw : M unit :=
  tar ← tarfile_open model_path;
  extractall_raw tar model_dir.

Definition main_raw : M unit :=
  announce ;;
  extract_raw ;;
  relist ;;
  metrics ← load_result_metrics;
  found ← lookup_metrics metrics;
  build_and_write found.1 found.2.

Definition script_raw (h : host) : M unit := bootstrap h ;; main_raw.

Definition load_stage_raw (h : host) : M pyval :=
  bootstrap h ;; announce ;; extract_raw ;; relist ;; load_result_metrics.

(** A component that is the name of an entry: not empty, not [.] or [..],
    without a slash. *)
Fixpoint has_slash (s : string) : bool :=
  match s with
  | EmptyString => false
  | String c rest => bool_decide (c = "/"%char) || has_slash rest
  end.

Definition plain_component (c : string) : bool :=
  negb (bool_decide (c = "") || bool_decide (c = ".") || bool_decide (c = "..")
        || has_slash c).

Definition plain_name (name : path) : bool := forallb plain_component name.

Definition plain_members (members : list (path * tar_entry)) : bool :=
  forallb (λ member, plain_name member.1) members.

(** The archive in the model directory, when there is one, has only members
    with plain names. *)
Definition plain_archive (fs : gmap path node) : Prop :=
  match fs !! model_path with
  | Some (File (TarGz members)) => plain_members members = true
  | _ => True
  end.

(** A relative name that does not lead out of the directory it is joined
    to: its components are names, [.] or [..], and no [..] steps above that
    directory.  [depth] counts the components below it reached so far. *)
Fixpoint confined (depth : nat) (name : path) : bool :=
  match name with
  | [] => true
  | c :: rest =>
      if bool_decide (c = "..") then
        match depth with
        | O => false
        | S above => confined above rest
        end
      else if bool_decide (c = ".") then confined depth rest
      else plain_component c && confined (S depth) rest
  end.

Definition confined_members (members : list (path * tar_entry)) : bool :=
  forallb (λ member, confined 0 member.1) members.

(** The archive in the model directory, when there is one, has only members
    whose names do not lead out of the extraction directory. *)
Definition confined_archive (fs : gmap path node) : Prop :=
  match fs !! model_path with
  | Some (File (TarGz members)) => confined_members members = true
  | _ => True
  end.

(** Every head of the path [p] as written resolves, when it does, to a path
    on the branch of [dest]. *)
Definition resolves_near (dest p : path) : Prop :=
  ∀ n fs q, walk fs [] (take n p) = Ok q → near dest q.

(** Lines 77 to 80 *)
Definition write_report (mae rmse : pyval) : M unit :=
  logger_info rmse_message [rmse] ;;
  open_write evaluation_path ;;
  text ← lift (Json.dumps (report_dict mae rmse));
  store evaluation_path (Text text).

(** Every run of [m] only adds [Mkdir] events to the trace. *)
Definition only_mkdirs {A} (m : M A) : Prop :=
  ∀ w, ∃ made, trace (m w).2 = (trace w ++ map Mkdir made)%list.

(** Any path. *)
Definition anywhere : path → Prop := λ _, True.

(** An archive that plants a file at the report path, with a result whose
    metrics lack [valid-rmse]. *)
Definition archive_planting_report : blob :=
  TarGz [([".."; "evaluation"; "evaluation.json"], TReg (Text "planted"));
         (["model.pkl"],
          TReg (Pickled (PObj "Result" [("metrics", PDict [(PStr "valid-mae", PFloat 1.23)])])))].

(** An archive with a directory member that points at the output directory,
    followed by [rest]. *)
Definition archive_making_output_dir (rest : list (path * tar_entry)) : blob :=
  TarGz (([".."; "evaluation"], TDir) :: rest).

(** * Properties of the model *)

(** ** The monad *)

Section monad_facts.
Context {A B : Type}.
Implicit Types (m : M A) (k : A → M B).

Lemma bind_run m k w :
  (m ≫= k) w = match m w with
               | (Ok a, w') => k a w'
               | (Raise e, w') => (Raise e, w')
               end.
Proof. reflexivity. Qed.

Lemma bind_ok m k w a w' : m w = (Ok a, w') → (m ≫= k) w = k a w'.
Proof. intros E. by rewrite bind_run, E. Qed.

Lemma bind_raise m k w e w' : m w = (Raise e, w') → (m ≫= k) w = (Raise e, w').
Proof. intros E. by rewrite bind_run, E. Qed.

Lemma bind_ok_inv m k w b w' :
  (m ≫= k) w = (Ok b, w') → ∃ a w0, m w = (Ok a, w0) ∧ k a w0 = (Ok b, w').
Proof.
  rewrite bind_run. destruct (m w) as [[a|e] w0]; [eauto | discriminate].
Qed.

End monad_facts.

Lemma string_app_empty (s : string) : s ++ "" = s.
Proof.
  induction s as [|c s IH]; [done|].
  change (String c (s ++ "") = String c s). by rewrite IH.
Qed.

(** ** Paths *)

Lemma parent_snoc (p : path) (c : string) : parent (p ++ [c]) = p.
Proof.
  unfold parent. rewrite length_app. simpl.
  replace (length p + 1 - 1)%nat with (length p) by lia.
  by rewrite take_app_length.
Qed.

Lemma parent_prefix (p : path) : parent p `prefix_of` p.
Proof. unfold parent. apply prefix_take. Qed.

Lemma parent_rev_cons (c : string) (rp : list string) : parent (rev (c :: rp)) = rev rp.
Proof. simpl. apply parent_snoc. Qed.

Lemma near_prefix_app (dest name p : path) : p `prefix_of` (dest ++ name)%list → near dest p.
Proof.
  intros Hp. unfold near.
  destruct (prefix_weak_total dest p (dest ++ name)%list) as [H|H]; auto.
  by apply prefix_app_r.
Qed.

(** ** How operations change the file system *)

Section steps.
Implicit Types (C W : path → Prop) (fs : gmap path node).

Lemma fs_steps_trans C W fs1 fs2 fs3 :
  fs_steps C W fs1 fs2 → fs_steps C W fs2 fs3 → fs_steps C W fs1 fs3.
Proof.
  induction 1 as [fs|fs fs' p n Hp HC _ IH|fs fs' p c Hp HW _ IH]; intros H3.
  - done.
  - eapply steps_create; eauto.
  - eapply steps_rewrite; eauto.
Qed.

Lemma fs_steps_mono C W C' W' fs fs' :
  (∀ p, C p → C' p) → (∀ p, W p → W' p) → fs_steps C W fs fs' → fs_steps C' W' fs fs'.
Proof.
  intros HC HW. induction 1 as [fs|fs fs' p n Hp HCp _ IH|fs fs' p c Hp HWp _ IH].
  - constructor.
  - eapply steps_create; eauto.
  - eapply steps_rewrite; eauto.
Qed.

(** Paths outside [C] and [W] keep what they had, or their absence. *)
Lemma fs_steps_untouched C W fs fs' p :
  fs_steps C W fs fs' → ¬ C p → ¬ W p → fs' !! p = fs !! p.
Proof.
  induction 1 as [fs|fs fs' q n Hq HC _ IH|fs fs' q c Hq HW _ IH]; intros HnC HnW.
  - done.
  - rewrite IH by done. apply lookup_insert_ne. by intros ->.
  - rewrite IH by done. apply lookup_insert_ne. by intros ->.
Qed.

(** An entry stays as it is, unless it is a regular file that is rewritten. *)
Lemma fs_steps_settled C W fs fs' p n :
  fs_steps C W fs fs' → fs !! p = Some n →
  fs' !! p = Some n ∨ (W p ∧ is_file (Some n) = true ∧ is_file (fs' !! p) = true).
Proof.
  intros H. revert n.
  induction H as [fs|fs fs' q n' Hq HC _ IH|fs fs' q c Hq HW _ IH]; intros n Hp.
  - by left.
  - apply IH. rewrite lookup_insert_ne; [done | congruence].
  - destruct (decide (q = p)) as [->|Hne].
    + right. rewrite Hp in Hq. split; [done | split; [done |]].
      destruct (IH (File c)) as [E|(_ & _ & E)]; [apply lookup_insert_eq | by rewrite E | done].
    + apply IH. by rewrite lookup_insert_ne.
Qed.

Lemma fs_steps_keep C W fs fs' p n :
  fs_steps C W fs fs' → fs !! p = Some n → ¬ W p → fs' !! p = Some n.
Proof.
  intros H Hp HnW. destruct (fs_steps_settled _ _ _ _ _ _ H Hp) as [E|(HW & _)]; [done | tauto].
Qed.

Lemma fs_steps_dir C W fs fs' p :
  fs_steps C W fs fs' → fs !! p = Some Dir → fs' !! p = Some Dir.
Proof.
  intros H Hp. destruct (fs_steps_settled _ _ _ _ _ _ H Hp) as [E|(_ & ? & _)]; [done | discriminate].
Qed.

Lemma fs_steps_is_Some C W fs fs' p :
  fs_steps C W fs fs' → is_Some (fs !! p) → is_Some (fs' !! p).
Proof.
  intros H [n Hp]. destruct (fs_steps_settled _ _ _ _ _ _ H Hp) as [E|(_ & _ & E)].
  - by rewrite E.
  - destruct (fs' !! p); [done | discriminate].
Qed.

Lemma fs_steps_is_file C W fs fs' p :
  fs_steps C W fs fs' → is_file (fs !! p) = true → is_file (fs' !! p) = true.
Proof.
  intros H Hp. destruct (fs !! p) as [n|] eqn:E; [|discriminate].
  destruct (fs_steps_settled _ _ _ _ _ _ H E) as [E'|(_ & _ & E')]; [by rewrite E' | done].
Qed.

End steps.

Section mutates_facts.
Context {A : Type}.
Implicit Types (C W : path → Prop).

Lemma mutates_same C W (m : M A) : (∀ w, files (m w).2 = files w) → mutates C W m.
Proof. intros H w. rewrite H. constructor. Qed.

Lemma mutates_mono C W C' W' (m : M A) :
  (∀ p, C p → C' p) → (∀ p, W p → W' p) → mutates C W m → mutates C' W' m.
Proof. intros HC HW H w. eapply fs_steps_mono; eauto. Qed.

Lemma mutates_bind {B} C W (m : M A) (k : A → M B) :
  mutates C W m → (∀ a, mutates C W (k a)) → mutates C W (m ≫= k).
Proof.
  intros Hm Hk w. rewrite bind_run. specialize (Hm w).
  destruct (m w) as [[a|e] w0]; simpl in *; [|done].
  eapply fs_steps_trans; [done | apply Hk].
Qed.

Lemma mutates_try_except C W (m : M A) handles handler :
  mutates C W m → (∀ e, mutates C W (handler e)) → mutates C W (try_except m handles handler).
Proof.
  intros Hm Hh w. unfold try_except. specialize (Hm w).
  destruct (m w) as [[a|e] w0]; simpl in *; [done|].
  destruct (handles e); [|done].
  eapply fs_steps_trans; [done | apply Hh].
Qed.

Lemma mutates_run C W (m : M A) w r w' :
  mutates C W m → m w = (r, w') → fs_steps C W (files w) (files w').
Proof. intros H E. specialize (H w). by rewrite E in H. Qed.

End mutates_facts.

Lemma mutates_for_each {A} C W (l : list A) (body : A → M unit) :
  (∀ x, x ∈ l → mutates C W (body x)) → mutates C W (for_each l body).
Proof.
  induction l as [|x l IH]; intros H; simpl.
  - by apply mutates_same.
  - apply mutates_bind; [apply H; left | intros _; apply IH; intros y Hy; apply H; by right].
Qed.

Lemma mutates_unless C W b (m : M unit) : mutates C W m → mutates C W (unless b m).
Proof. intros H. destruct b; simpl; [by apply mutates_same | done]. Qed.

(** ** The primitive operations *)

Lemma os_mkdir_run p w :
  os_mkdir p w =
    match files w !! p with
    | Some _ => (Raise (FileExistsError p), w)
    | None =>
        match files w !! parent p with
        | Some Dir => (Ok tt, World (<[p:=Dir]> (files w)) (trace w ++ [Mkdir p]))
        | Some (File _) => (Raise (NotADirectoryError p), w)
        | None => (Raise (no_entry (files w) p), w)
        end
    end.
Proof.
  unfold os_mkdir. rewrite bind_run. simpl.
  destruct (files w !! p); [done|].
  rewrite bind_run. simpl. by destruct (files w !! parent p) as [[|]|].
Qed.

Lemma open_write_run p w :
  open_write p w =
    let opened := (Ok tt, World (<[p:=File (Text "")]> (files w)) (trace w ++ [Truncate p])) in
    match files w !! p with
    | Some Dir => (Raise (IsADirectoryError p), w)
    | Some (File _) => opened
    | None =>
        match files w !! parent p with
        | Some Dir => opened
        | Some (File _) => (Raise (NotADirectoryError p), w)
        | None => (Raise (no_entry (files w) p), w)
        end
    end.
Proof.
  unfold open_write. rewrite bind_run. simpl.
  destruct (files w !! p) as [[|]|]; [done..|].
  rewrite bind_run. simpl. by destruct (files w !! parent p) as [[|]|].
Qed.

Lemma os_path_exists_run p w :
  os_path_exists p w = (Ok (bool_decide (is_Some (files w !! p))), w).
Proof. reflexivity. Qed.

Lemma os_path_isdir_run p w : os_path_isdir p w = (Ok (is_dir (files w !! p)), w).
Proof. reflexivity. Qed.

Lemma logger_log_run msg args w :
  ∃ ev, logger_log msg args w = (Ok tt, World (files w) (trace w ++ [ev])).
Proof.
  unfold logger_log. destruct args; [by eexists|].
  destruct (percent_format _ _); by eexists.
Qed.

Lemma for_each_log_run (log : string → list pyval → M unit) names w :
  (∀ msg args w, ∃ ev, log msg args w = (Ok tt, World (files w) (trace w ++ [ev]))) →
  ∃ evs, for_each names (λ file, log file []) w = (Ok tt, World (files w) (trace w ++ evs)).
Proof.
  intros Hlog. revert w. induction names as [|x names IH]; intros w; simpl.
  - exists []. rewrite app_nil_r. by destruct w.
  - destruct (Hlog x [] w) as [ev E]. rewrite bind_run, E.
    destruct (IH (World (files w) (trace w ++ [ev]))) as [evs E']. rewrite E'. simpl.
    exists (ev :: evs). by rewrite <- app_assoc.
Qed.

Section step_lemmas.
Implicit Types (p : path).

Lemma mutates_os_mkdir p : mutates (eq p) nowhere (os_mkdir p).
Proof.
  intros w. rewrite os_mkdir_run.
  destruct (files w !! p) eqn:Hp; [constructor|].
  destruct (files w !! parent p) as [[|]|]; try constructor. simpl.
  eapply steps_create; [done.. | constructor].
Qed.

Lemma makefile_run p content w :
  makefile p content w =
    match open_write p w with
    | (Ok _, w1) =>
        (Ok tt, World (<[p:=File content]> (files w1)) (trace w1 ++ [Store p content]))
    | (Raise e, w1) => (Raise e, w1)
    end.
Proof. unfold makefile. rewrite bind_run. by destruct (open_write p w) as [[[]|] w1]. Qed.

Lemma mutates_makefile p content : mutates (eq p) (eq p) (makefile p content).
Proof.
  intros w. rewrite makefile_run, open_write_run.
  destruct (files w !! p) as [[|]|] eqn:Hp; cbn [snd files].
  - constructor.
  - rewrite insert_insert_eq. eapply steps_rewrite; [by rewrite Hp | done | constructor].
  - destruct (files w !! parent p) as [[|]|]; cbn [snd files]; try constructor.
    rewrite insert_insert_eq. eapply steps_create; [done.. | constructor].
Qed.

Lemma mutates_makedirs_rev rp :
  mutates (λ p, p `prefix_of` rev rp) nowhere (makedirs_rev rp).
Proof.
  induction rp as [|c head IH]; simpl makedirs_rev.
  - eapply mutates_mono; [| |apply mutates_os_mkdir]; [by intros ? <- | done].
  - apply mutates_bind; [by apply mutates_same|]. intros head_exists.
    apply mutates_bind.
    + apply mutates_unless, mutates_try_except; [|intros; by apply mutates_same].
      eapply mutates_mono; [| |apply IH]; [|done].
      intros p Hp. simpl. by apply prefix_app_r.
    + intros _. eapply mutates_mono; [| |apply mutates_os_mkdir]; [by intros ? <- | done].
Qed.

Lemma mutates_mkdir_plain p exist_ok : mutates (eq p) nowhere (mkdir_plain p exist_ok).
Proof.
  apply mutates_try_except; [apply mutates_os_mkdir|].
  intros e. destruct (is_FileNotFoundError e); [by apply mutates_same|].
  apply mutates_bind; [by apply mutates_same|].
  intros isdir. destruct (exist_ok && isdir); by apply mutates_same.
Qed.

Lemma mutates_mkdir_parents_rev rp exist_ok :
  mutates (λ p, p `prefix_of` rev rp) nowhere (mkdir_parents_rev rp exist_ok).
Proof.
  revert exist_ok. induction rp as [|c rparent IH]; intros exist_ok; simpl mkdir_parents_rev.
  - apply mutates_try_except.
    + eapply mutates_mono; [| |apply mutates_os_mkdir]; [by intros ? <- | done].
    + intros e. destruct (is_FileNotFoundError e); [by apply mutates_same|].
      apply mutates_bind; [by apply mutates_same|].
      intros isdir. destruct (exist_ok && isdir); by apply mutates_same.
  - apply mutates_try_except.
    + eapply mutates_mono; [| |apply mutates_os_mkdir]; [by intros ? <- | done].
    + intros e. destruct (is_FileNotFoundError e).
      * apply mutates_bind.
        -- eapply mutates_mono; [| |apply IH]; [|done].
           intros p Hp. simpl. by apply prefix_app_r.
        -- intros _. eapply mutates_mono; [| |apply mutates_mkdir_plain]; [by intros ? <- | done].
      * apply mutates_bind; [by apply mutates_same|].
        intros isdir. destruct (exist_ok && isdir); by apply mutates_same.
Qed.

Lemma mutates_pathlib_mkdir p exist_ok :
  mutates (λ q, q `prefix_of` p) nowhere (pathlib_mkdir p true exist_ok).
Proof.
  unfold pathlib_mkdir. eapply mutates_mono; [| |apply mutates_mkdir_parents_rev]; [|done].
  intros q. by rewrite rev_involutive.
Qed.

Lemma mutates_extract_member dest member :
  mutates (λ p, p `prefix_of` (dest ++ member.1)%list)
          (λ p, p = (dest ++ member.1)%list ∧ ∃ content, member.2 = TReg content)
          (extract_member dest member).
Proof.
  unfold extract_member. apply mutates_bind; [by apply mutates_same|].
  intros upper_exists. apply mutates_bind.
  - apply mutates_unless. unfold os_makedirs.
    eapply mutates_mono; [| |apply mutates_makedirs_rev]; [|done].
    intros p. rewrite rev_involutive. intros Hp.
    etrans; [done | apply parent_prefix].
  - intros _. destruct (member.2) as [|content] eqn:E.
    + apply mutates_try_except; [|intros; by apply mutates_same].
      eapply mutates_mono; [| |apply mutates_os_mkdir]; [by intros ? <- | done].
    + eapply mutates_mono; [| |apply mutates_makefile];
        [by intros ? <- | intros ? <-; eauto].
Qed.

Lemma mutates_extractall dest members :
  mutates (near dest) (written dest members) (extractall members dest).
Proof.
  apply mutates_for_each. intros [name entry] Hin.
  eapply mutates_mono; [| |apply mutates_extract_member].
  - intros p Hp. simpl in Hp. by eapply near_prefix_app.
  - intros p [-> [content E]]. simpl in E. subst entry. by exists name, content.
Qed.

End step_lemmas.

(** ** The stages of the run *)

Section stage_algebra.
Context {A B C : Type}.

Lemma bind_assoc (m : M A) (f : A → M B) (g : B → M C) w :
  ((m ≫= f) ≫= g) w = (m ≫= λ x, f x ≫= g) w.
Proof. rewrite !bind_run. by destruct (m w) as [[a|e] w0]. Qed.

Lemma bind_ext (m : M A) (k k' : A → M B) w :
  (∀ a w0, k a w0 = k' a w0) → (m ≫= k) w = (m ≫= k') w.
Proof. intros H. rewrite !bind_run. by destruct (m w) as [[a|e] w0]. Qed.

End stage_algebra.

Lemma script_via_load h w : script h w = (load_stage h ≫= report_stage) w.
Proof.
  unfold script, main, load_stage, report_stage. symmetry.
  rewrite bind_assoc. apply bind_ext; intros _ w1.
  rewrite bind_assoc. apply bind_ext; intros _ w2.
  rewrite bind_assoc. apply bind_ext; intros _ w3.
  rewrite bind_assoc. by apply bind_ext.
Qed.

Lemma script_via_lookup h w :
  script h w = (lookup_stage h ≫= λ found, build_and_write found.1 found.2) w.
Proof.
  unfold script, main, lookup_stage. symmetry.
  rewrite bind_assoc. apply bind_ext; intros _ w1.
  rewrite bind_assoc. apply bind_ext; intros _ w2.
  rewrite bind_assoc. apply bind_ext; intros _ w3.
  rewrite bind_assoc. apply bind_ext; intros _ w4.
  by rewrite bind_assoc.
Qed.

Lemma script_via_before_extract h w :
  script h w =
    (before_extract h ;; extract ;; relist ;; metrics ← load_result_metrics;
     report_stage metrics) w.
Proof. unfold script, main, before_extract. symmetry. by rewrite bind_assoc. Qed.

Lemma script_via_before_load h w :
  script h w = (before_load h ;; metrics ← load_result_metrics; report_stage metrics) w.
Proof.
  unfold script, main, before_load. symmetry.
  rewrite bind_assoc. apply bind_ext; intros _ w1.
  rewrite bind_assoc. apply bind_ext; intros _ w2.
  by rewrite bind_assoc.
Qed.

Lemma load_via_before_load h w :
  load_stage h w = (before_load h ;; load_result_metrics) w.
Proof.
  unfold load_stage, before_load. symmetry.
  rewrite bind_assoc. apply bind_ext; intros _ w1.
  rewrite bind_assoc. apply bind_ext; intros _ w2.
  by rewrite bind_assoc.
Qed.

(** *** What each stage does *)

Lemma bootstrap_run h w :
  bootstrap h w =
    if pip_returncode h =? 0 then
      if imports_resolve h then (Ok tt, w) else (Raise ImportError, w)
    else (Raise (CalledProcessError (pip_returncode h)), w).
Proof. unfold bootstrap. destruct (_ =? _); [destruct (imports_resolve h)|]; done. Qed.

Lemma os_listdir_run p w :
  os_listdir p w =
    match files w !! p with
    | Some Dir => (Ok (children (files w) p), w)
    | Some (File _) => (Raise (NotADirectoryError p), w)
    | None => (Raise (no_entry (files w) p), w)
    end.
Proof. unfold os_listdir. rewrite bind_run. simpl. by destruct (files w !! p) as [[|]|]. Qed.

Lemma tarfile_open_run p w :
  tarfile_open p w =
    match files w !! p with
    | Some (File (TarGz members)) => (Ok members, w)
    | Some (File _) => (Raise ReadError, w)
    | Some Dir => (Raise (IsADirectoryError p), w)
    | None => (Raise (no_entry (files w) p), w)
    end.
Proof.
  unfold tarfile_open. rewrite bind_run. simpl.
  by destruct (files w !! p) as [[|[]]|].
Qed.

Lemma load_result_metrics_run w :
  load_result_metrics w = (pickled_metrics (files w), w).
Proof.
  unfold load_result_metrics, pickled_metrics, read_file. rewrite !bind_run. simpl.
  destruct (files w !! model_pkl) as [[|content]|]; [done| |done].
  simpl. rewrite bind_run. unfold lift. by destruct (cloudpickle_loads content).
Qed.

Lemma lookup_metrics_run metrics w :
  lookup_metrics metrics w =
    let w1 := World (files w) (trace w ++ [Stdout "extracting metrics."]) in
    match py_getitem metrics "valid-mae" with
    | Raise e => (Raise e, w1)
    | Ok mae =>
        match py_getitem metrics "valid-rmse" with
        | Raise e => (Raise e, w1)
        | Ok rmse => (Ok (mae, rmse), w1)
        end
    end.
Proof.
  unfold lookup_metrics. rewrite bind_run. simpl. rewrite bind_run. unfold lift.
  destruct (py_getitem metrics "valid-mae"); [|done].
  rewrite bind_run. by destruct (py_getitem metrics "valid-rmse").
Qed.

Lemma logger_rmse_run rmse w :
  logger_info rmse_message [rmse] w
  = (Ok tt, World (files w) (trace w ++ [rmse_log_event rmse])).
Proof.
  unfold logger_info, logger_log, rmse_message, rmse_log_event.
  cbn [percent_format]. destruct (format_f rmse) as [s|e]; [|done].
  by rewrite string_app_empty.
Qed.

Lemma announce_run w :
  ∃ evs, announce w =
    match files w !! model_dir with
    | Some Dir => (Ok tt, World (files w) (trace w ++ evs))
    | Some (File _) => (Raise (NotADirectoryError model_dir), World (files w) (trace w ++ evs))
    | None => (Raise (no_entry (files w) model_dir), World (files w) (trace w ++ evs))
    end.
Proof.
  unfold announce, logger_debug, logger_info.
  destruct (logger_log_run "Starting evaluation." [] w) as [ev0 E0].
  rewrite bind_run, E0, bind_run, os_listdir_run. simpl files.
  destruct (files w !! model_dir) as [[|]|]; [|by exists [ev0]..].
  rewrite bind_run.
  destruct (for_each_log_run logger_log (children (files w) model_dir)
              (World (files w) (trace w ++ [ev0])) logger_log_run) as [evs E1].
  rewrite E1. cbn [files trace].
  destruct (logger_log_run "Loading model." [] (World (files w) ((trace w ++ [ev0]) ++ evs)))
    as [ev2 E2].
  cbn [files trace] in E2. rewrite E2.
  exists (ev0 :: evs ++ [ev2]). f_equal. f_equal.
  rewrite <- !app_assoc. done.
Qed.

Lemma relist_run w :
  ∃ evs, relist w =
    match files w !! model_dir with
    | Some Dir => (Ok tt, World (files w) (trace w ++ evs))
    | Some (File _) => (Raise (NotADirectoryError model_dir), World (files w) (trace w ++ evs))
    | None => (Raise (no_entry (files w) model_dir), World (files w) (trace w ++ evs))
    end.
Proof.
  unfold relist, logger_debug. rewrite bind_run, os_listdir_run.
  destruct (files w !! model_dir) as [[|]|];
    [|exists []; rewrite app_nil_r; by destruct w..].
  apply (for_each_log_run logger_log _ w logger_log_run).
Qed.

Lemma extract_run w :
  extract w =
    match files w !! model_path with
    | Some (File (TarGz members)) => extractall members model_dir w
    | Some (File _) => (Raise ReadError, w)
    | Some Dir => (Raise (IsADirectoryError model_path), w)
    | None => (Raise (no_entry (files w) model_path), w)
    end.
Proof.
  unfold extract. rewrite bind_run, tarfile_open_run.
  by destruct (files w !! model_path) as [[|[]]|].
Qed.

(** ** Directory trees and [mkdir] *)

Lemma prefix_snoc_inv (q l : path) (c : string) :
  q `prefix_of` (l ++ [c])%list → q = (l ++ [c])%list ∨ q `prefix_of` l.
Proof.
  intros [k Hk]. destruct k as [|x k _] using rev_ind.
  - left. by rewrite app_nil_r in Hk.
  - right. rewrite app_assoc in Hk. apply app_inj_tail in Hk as [-> _]. by exists k.
Qed.

(** In a tree, everything above an entry is a directory. *)
Lemma is_dir_true (n : option node) : is_dir n = true → n = Some Dir.
Proof. by destruct n as [[|]|]. Qed.

Lemma fs_tree_root fs : fs_tree fs → fs !! [] = Some Dir.
Proof. intros [Hroot _]. by apply is_dir_true. Qed.

Lemma fs_tree_parent fs (p : path) : fs_tree fs → is_Some (fs !! p) → fs !! parent p = Some Dir.
Proof. intros [Hroot Hall] [n Hp]. apply is_dir_true. by apply Hall in Hp. Qed.

Lemma fs_tree_prefix fs (p q : path) :
  fs_tree fs → is_Some (fs !! p) → q `prefix_of` p → q ≠ p → fs !! q = Some Dir.
Proof.
  intros Htree. revert q.
  induction p as [|c l IH] using rev_ind; intros q Hp Hq Hne.
  - by apply prefix_nil_inv in Hq.
  - apply (fs_tree_parent _ _ Htree) in Hp as Hpar.
    rewrite parent_snoc in Hpar.
    apply prefix_snoc_inv in Hq as [->|Hq]; [done|].
    destruct (decide (q = l)) as [->|Hql]; [done|].
    apply IH; [by rewrite Hpar | done..].
Qed.

Lemma through_file_false fs (pre rest : path) :
  (∀ q, q `prefix_of` (pre ++ rest)%list → is_file (fs !! q) = false) →
  through_file fs pre rest = false.
Proof.
  revert pre. induction rest as [|c rest IH]; intros pre H; simpl; [done|].
  rewrite H by (by apply prefix_app_r). simpl.
  apply IH. intros q. rewrite <- app_assoc. apply H.
Qed.

Lemma mkdir_parents_rev_unfold rp exist_ok :
  mkdir_parents_rev rp exist_ok =
    try_except (os_mkdir (rev rp)) is_OSError
      (λ e, if is_FileNotFoundError e then
              match rp with
              | [] => raise e
              | _ :: rparent =>
                  mkdir_parents_rev rparent true ;; mkdir_plain (rev rp) exist_ok
              end
            else isdir ← os_path_isdir (rev rp);
                 if exist_ok && isdir then ret tt else raise e).
Proof. by destruct rp. Qed.

(** [mkdir(parents=True, exist_ok=True)] of a directory that exists does
    nothing. *)
Lemma mkdir_parents_existing rp w :
  files w !! rev rp = Some Dir → mkdir_parents_rev rp true w = (Ok tt, w).
Proof.
  intros H. rewrite mkdir_parents_rev_unfold. unfold try_except.
  rewrite os_mkdir_run, H. simpl. rewrite bind_run, os_path_isdir_run, H. done.
Qed.

Lemma mkdir_plain_ok_dir p exist_ok w w' :
  mkdir_plain p exist_ok w = (Ok tt, w') → files w' !! p = Some Dir.
Proof.
  unfold mkdir_plain, try_except. rewrite os_mkdir_run.
  destruct (files w !! p) as [n|] eqn:Hp.
  - simpl. rewrite bind_run, os_path_isdir_run, Hp.
    destruct n; simpl; [|by rewrite andb_false_r].
    destruct exist_ok; simpl; [|done]. by intros [= <-].
  - destruct (files w !! parent p) as [[|]|]; simpl.
    + intros [= <-]. apply lookup_insert_eq.
    + rewrite bind_run, os_path_isdir_run, Hp. simpl. by rewrite andb_false_r.
    + unfold no_entry. destruct (through_file _ _ _); simpl; [|done].
      rewrite bind_run, os_path_isdir_run, Hp. simpl. by rewrite andb_false_r.
Qed.

(** After a successful [mkdir(parents=True)] the directory is there. *)
Lemma mkdir_parents_ok_dir rp exist_ok w w' :
  mkdir_parents_rev rp exist_ok w = (Ok tt, w') → files w' !! rev rp = Some Dir.
Proof.
  rewrite mkdir_parents_rev_unfold. unfold try_except. rewrite os_mkdir_run.
  destruct (files w !! rev rp) as [n|] eqn:Hp.
  - simpl. rewrite bind_run, os_path_isdir_run, Hp.
    destruct n; simpl; [|by rewrite andb_false_r].
    destruct exist_ok; simpl; [|done]. by intros [= <-].
  - destruct (files w !! parent (rev rp)) as [[|]|]; simpl.
    + intros [= <-]. apply lookup_insert_eq.
    + rewrite bind_run, os_path_isdir_run, Hp. simpl. by rewrite andb_false_r.
    + unfold no_entry. destruct (through_file _ _ _); simpl.
      * rewrite bind_run, os_path_isdir_run, Hp. simpl. by rewrite andb_false_r.
      * destruct rp as [|c rparent]; [done|].
        intros H. apply bind_ok_inv in H as ([] & w0 & _ & H).
        by apply mkdir_plain_ok_dir in H.
Qed.

(** [mkdir(parents=True, exist_ok=True)] in a tree, when no regular file is
    in the way: every missing directory down to the path is made and nothing
    else changes. *)
Lemma mkdir_parents_creates rp w :
  fs_tree (files w) →
  (∀ q, q `prefix_of` rev rp → is_file (files w !! q) = false) →
  ∃ w', mkdir_parents_rev rp true w = (Ok tt, w')
        ∧ ∀ q, files w' !! q = if decide (q `prefix_of` rev rp) then Some Dir
                               else files w !! q.
Proof.
  intros Htree. pose proof (fs_tree_root _ Htree) as Hroot.
  induction rp as [|c rparent IH]; intros Hfree.
  - exists w. split.
    + by apply mkdir_parents_existing.
    + intros q. case_decide as Hq; [|done].
      by apply prefix_nil_inv in Hq as ->.
  - rewrite mkdir_parents_rev_unfold. unfold try_except. rewrite os_mkdir_run.
    rewrite parent_rev_cons.
    assert (∀ q, q `prefix_of` rev rparent → is_file (files w !! q) = false) as Hfree'.
    { intros q Hq. apply Hfree. simpl. by apply prefix_app_r. }
    destruct (files w !! rev (c :: rparent)) as [n|] eqn:Hp.
    { (* the directory exists *)
      assert (n = Dir) as ->.
      { specialize (Hfree (rev (c :: rparent))). rewrite Hp in Hfree.
        destruct n; [done|]. by specialize (Hfree ltac:(done)). }
      exists w. cbn -[rev]. rewrite bind_run, os_path_isdir_run, Hp. split; [done|].
      intros q. case_decide as Hq; [|done].
      destruct (decide (q = rev (c :: rparent))) as [->|Hne]; [done|].
      eapply fs_tree_prefix; eauto; by rewrite Hp. }
    destruct (files w !! rev rparent) as [[|content]|] eqn:Hup.
    { (* its parent exists *)
      eexists. split; [done|]. intros q. simpl files.
      destruct (decide (q = rev (c :: rparent))) as [->|Hne].
      - rewrite lookup_insert_eq. by rewrite decide_True.
      - rewrite lookup_insert_ne by done.
        case_decide as Hq; [|done]. simpl in Hq.
        apply prefix_snoc_inv in Hq as [->|Hq]; [done|].
        destruct (decide (q = rev rparent)) as [->|Hne']; [done|].
        eapply fs_tree_prefix; eauto; by rewrite Hup. }
    { specialize (Hfree' (rev rparent)). rewrite Hup in Hfree'.
      by specialize (Hfree' ltac:(done)). }
    (* the parent is missing *)
    unfold no_entry. rewrite through_file_false by (intros q; apply Hfree).
    cbn -[rev]. destruct (IH Hfree') as (w1 & E1 & Hw1).
    rewrite (bind_ok _ _ _ _ _ E1).
    unfold mkdir_plain, try_except. rewrite os_mkdir_run, parent_rev_cons.
    rewrite !Hw1. rewrite decide_False by (simpl; apply prefix_snoc_not).
    rewrite Hp, decide_True by done.
    eexists. split; [done|]. intros q. simpl files.
    destruct (decide (q = rev (c :: rparent))) as [->|Hne].
    + rewrite lookup_insert_eq. by rewrite decide_True.
    + rewrite lookup_insert_ne by done. rewrite Hw1.
      case_decide as Hq.
      * rewrite decide_True; [done|]. simpl. by apply prefix_app_r.
      * rewrite decide_False; [done|]. simpl. intros Hq'.
        apply prefix_snoc_inv in Hq' as [->|Hq']; done.
Qed.

(** ** JSON text of the report *)

Lemma string_app_assoc (a b c : string) : (a ++ b) ++ c = a ++ (b ++ c).
Proof.
  induction a as [|x a IH]; [done|].
  change (String x ((a ++ b) ++ c) = String x (a ++ (b ++ c))). by rewrite IH.
Qed.

Lemma dumps_report mae rmse :
  Json.dumps (report_dict mae rmse) =
    match Json.dumps mae with
    | Raise e => Raise e
    | Ok mae_text =>
        match Json.dumps rmse with
        | Raise e => Raise e
        | Ok rmse_text => Ok (report_text mae_text rmse_text)
        end
    end.
Proof.
  unfold Json.dumps, report_dict. cbn [Json.encode Json.key_text].
  destruct (Json.encode mae) as [sm|]; [|done].
  destruct (Json.encode rmse) as [sr|]; [|done].
  f_equal. unfold report_text. cbn [Json.join].
  rewrite !string_app_assoc. reflexivity.
Qed.

(** ** Lines 60 to 80 *)

Lemma build_and_write_run mae rmse w :
  build_and_write mae rmse w =
    match pathlib_mkdir output_dir true true w with
    | (Raise e, w1) => (Raise e, w1)
    | (Ok _, w1) =>
        match open_write evaluation_path
                (World (files w1) (trace w1 ++ [rmse_log_event rmse])) with
        | (Raise e, w2) => (Raise e, w2)
        | (Ok _, w2) =>
            match Json.dumps (report_dict mae rmse) with
            | Raise e => (Raise e, w2)
            | Ok text =>
                (Ok tt, World (<[evaluation_path:=File (Text text)]> (files w2))
                              (trace w2 ++ [Store evaluation_path (Text text)]))
            end
        end
    end.
Proof.
  unfold build_and_write. rewrite bind_run.
  destruct (pathlib_mkdir output_dir true true w) as [[[]|e] w1]; [|done].
  rewrite bind_run, logger_rmse_run, bind_run.
  destruct (open_write _ _) as [[[]|e] w2]; [|done].
  rewrite bind_run. unfold lift. by destruct (Json.dumps _).
Qed.

(** [mkdir(parents=True, exist_ok=True)] of a directory that exists, or
    that is missing from a directory. *)
Lemma mkdir_below_dir (p : path) w :
  files w !! p = Some Dir ∨ (files w !! p = None ∧ files w !! parent p = Some Dir) →
  ∃ evs, pathlib_mkdir p true true w
         = (Ok tt, World (<[p:=Dir]> (files w)) (trace w ++ evs)).
Proof.
  intros H. unfold pathlib_mkdir. rewrite mkdir_parents_rev_unfold. unfold try_except.
  rewrite os_mkdir_run, rev_involutive.
  destruct H as [E|[E Hup]]; rewrite E.
  - exists []. cbn -[rev]. rewrite bind_run, os_path_isdir_run, E.
    simpl. rewrite insert_id, app_nil_r by done. by destruct w.
  - rewrite Hup. by exists [Mkdir p].
Qed.

Lemma report_stage_ok metrics mae rmse text w :
  py_getitem metrics "valid-mae" = Ok mae →
  py_getitem metrics "valid-rmse" = Ok rmse →
  Json.dumps (report_dict mae rmse) = Ok text →
  files w !! output_dir = Some Dir
  ∨ (files w !! output_dir = None ∧ files w !! parent output_dir = Some Dir) →
  is_dir (files w !! evaluation_path) = false →
  ∃ evs,
    report_stage metrics w
    = (Ok tt,
       World (<[evaluation_path:=File (Text text)]> (<[output_dir:=Dir]> (files w)))
             (trace w ++ evs ++ [rmse_log_event rmse; Truncate evaluation_path;
                                 Store evaluation_path (Text text)])).
Proof.
  intros Hmae Hrmse Htext Hout Hfile.
  unfold report_stage. rewrite bind_run, lookup_metrics_run, Hmae, Hrmse.
  cbn [fst snd]. rewrite build_and_write_run.
  destruct (mkdir_below_dir output_dir
              (World (files w) (trace w ++ [Stdout "extracting metrics."])) Hout)
    as [evs ->].
  rewrite open_write_run. cbn [files trace].
  assert (<[output_dir:=Dir]> (files w) !! evaluation_path = files w !! evaluation_path) as ->
    by by rewrite lookup_insert_ne.
  replace (parent evaluation_path) with output_dir by done.
  rewrite lookup_insert_eq, Htext.
  exists (Stdout "extracting metrics." :: evs).
  destruct (files w !! evaluation_path) as [[|]|]; [done|..]; cbn [files trace];
    rewrite insert_insert_eq; do 2 f_equal; rewrite <- !app_assoc; done.
Qed.

Lemma report_stage_ok_inv metrics w w' :
  report_stage metrics w = (Ok tt, w') →
  ∃ mae rmse text wD,
    py_getitem metrics "valid-mae" = Ok mae
    ∧ py_getitem metrics "valid-rmse" = Ok rmse
    ∧ Json.dumps (report_dict mae rmse) = Ok text
    ∧ pathlib_mkdir output_dir true true
        (World (files w) (trace w ++ [Stdout "extracting metrics."])) = (Ok tt, wD)
    ∧ is_dir (files wD !! evaluation_path) = false
    ∧ files w' = <[evaluation_path:=File (Text text)]> (files wD)
    ∧ trace w' = (trace wD ++ [rmse_log_event rmse; Truncate evaluation_path;
                               Store evaluation_path (Text text)])%list.
Proof.
  unfold report_stage. rewrite bind_run, lookup_metrics_run.
  destruct (py_getitem metrics "valid-mae") as [mae|]; [|done].
  destruct (py_getitem metrics "valid-rmse") as [rmse|]; [|done].
  cbn [fst snd]. rewrite build_and_write_run.
  destruct (pathlib_mkdir _ _ _ _) as [[[]|] wD] eqn:ED; [|done].
  rewrite open_write_run. cbn [files trace].
  destruct (Json.dumps (report_dict mae rmse)) as [text|] eqn:Etext.
  - intros H. exists mae, rmse, text, wD. do 4 (split; [done|]).
    destruct (files wD !! evaluation_path) as [[|]|]; [done| |].
    + injection H as <-. cbn [files trace]. rewrite insert_insert_eq.
      split; [done|]. split; [done|]. by rewrite <- !app_assoc.
    + destruct (files wD !! parent evaluation_path) as [[|]|]; [|done..].
      injection H as <-. cbn [files trace]. rewrite insert_insert_eq.
      split; [done|]. split; [done|]. by rewrite <- !app_assoc.
  - destruct (files wD !! evaluation_path) as [[|]|]; [done..|].
    by destruct (files wD !! parent evaluation_path) as [[|]|].
Qed.

(** ** Where the stages write *)

Lemma written_below dest members p : written dest members p → dest `prefix_of` p.
Proof. intros (name & content & _ & ->). by apply prefix_app_r. Qed.

Lemma bootstrap_files h w : files (bootstrap h w).2 = files w.
Proof. rewrite bootstrap_run. by repeat case_match. Qed.

Lemma announce_files w : files (announce w).2 = files w.
Proof. destruct (announce_run w) as [evs ->]. by repeat case_match. Qed.

Lemma relist_files w : files (relist w).2 = files w.
Proof. destruct (relist_run w) as [evs ->]. by repeat case_match. Qed.

Lemma mutates_extract : mutates (near model_dir) below_model extract.
Proof.
  intros w. rewrite extract_run.
  destruct (files w !! model_path) as [[|[| |members]]|]; try constructor.
  eapply fs_steps_mono; [| |apply mutates_extractall]; [done|].
  apply written_below.
Qed.

Lemma mutates_before_load h : mutates (near model_dir) below_model (before_load h).
Proof.
  unfold before_load.
  apply mutates_bind; [apply mutates_same, bootstrap_files|]; intros _.
  apply mutates_bind; [apply mutates_same, announce_files|]; intros _.
  apply mutates_bind; [apply mutates_extract|]; intros _.
  apply mutates_same, relist_files.
Qed.

Lemma mutates_load_stage h : mutates (near model_dir) below_model (load_stage h).
Proof.
  intros w. rewrite load_via_before_load, bind_run.
  assert (H := mutates_before_load h w).
  destruct (before_load h w) as [[[]|] w0]; [|done].
  by rewrite load_result_metrics_run.
Qed.

(** ** The whole run *)

Lemma below_output_not_near (p : path) : output_dir `prefix_of` p → ¬ near model_dir p.
Proof. intros [k ->] [[k' H]|[k' H]]; by simplify_eq/=. Qed.

Lemma below_output_not_model (p : path) : output_dir `prefix_of` p → ¬ below_model p.
Proof. intros [k ->] [k' H]; by simplify_eq/=. Qed.

Lemma output_dir_not_near : ¬ near model_dir output_dir.
Proof. by apply below_output_not_near. Qed.

Lemma evaluation_path_not_near : ¬ near model_dir evaluation_path.
Proof. apply below_output_not_near. by exists ["evaluation.json"]. Qed.

(** What a run that reaches line 56 went through. *)
Lemma load_stage_ok_inv h w metrics wL :
  load_stage h w = (Ok metrics, wL) →
  pip_returncode h = 0 ∧ imports_resolve h = true
  ∧ files w !! model_dir = Some Dir
  ∧ (∃ members wa wb,
        files w !! model_path = Some (File (TarGz members))
        ∧ files wa = files w
        ∧ extractall members model_dir wa = (Ok tt, wb)
        ∧ files wL = files wb)
  ∧ pickled_metrics (files wL) = Ok metrics.
Proof.
  unfold load_stage. rewrite bind_run, bootstrap_run.
  destruct (pip_returncode h =? 0) eqn:Hpip; [|done].
  destruct (imports_resolve h); [|done].
  rewrite bind_run. destruct (announce_run w) as [evs0 ->].
  destruct (files w !! model_dir) as [[|]|] eqn:Hdir; [|done..].
  rewrite bind_run, extract_run. cbn [files].
  destruct (files w !! model_path) as [[|[| |members]]|] eqn:Harch; try done.
  destruct (extractall members model_dir _) as [[[]|] wb] eqn:Eextract; [|done].
  rewrite bind_run. destruct (relist_run wb) as [evs1 ->].
  destruct (files wb !! model_dir) as [[|]|]; [|done..].
  rewrite load_result_metrics_run. cbn [files]. intros [= Hm <-].
  split; [lia|]. split; [done|]. split; [done|]. split; [|done].
  eexists members, _, wb. split; [done|]. split; [|done]. done.
Qed.


(** What a run that exits normally went through. *)
Lemma script_ok_inv h w w' :
  script h w = (Ok tt, w') →
  ∃ metrics wL mae rmse text wD,
    load_stage h w = (Ok metrics, wL)
    ∧ py_getitem metrics "valid-mae" = Ok mae
    ∧ py_getitem metrics "valid-rmse" = Ok rmse
    ∧ Json.dumps (report_dict mae rmse) = Ok text
    ∧ pathlib_mkdir output_dir true true
        (World (files wL) (trace wL ++ [Stdout "extracting metrics."])) = (Ok tt, wD)
    ∧ is_dir (files wD !! evaluation_path) = false
    ∧ files w' = <[evaluation_path:=File (Text text)]> (files wD)
    ∧ trace w' = (trace wD ++ [rmse_log_event rmse; Truncate evaluation_path;
                               Store evaluation_path (Text text)])%list.
Proof.
  rewrite script_via_load. intros H.
  apply bind_ok_inv in H as (metrics & wL & Hload & H).
  apply report_stage_ok_inv in H as (mae & rmse & text & wD & H).
  by exists metrics, wL, mae, rmse, text, wD.
Qed.

(** ** Extracting the same archive again *)

Lemma os_mkdir_ok_inv p w w' :
  os_mkdir p w = (Ok tt, w') → files w' = <[p:=Dir]> (files w).
Proof.
  rewrite os_mkdir_run. destruct (files w !! p); [done|].
  destruct (files w !! parent p) as [[|]|]; [|done..]. by intros [= <-].
Qed.

Lemma makedirs_ok_exists rp w w' :
  makedirs_rev rp w = (Ok tt, w') → is_Some (files w' !! rev rp).
Proof.
  assert (∀ w0, os_mkdir (rev rp) w0 = (Ok tt, w') → is_Some (files w' !! rev rp)) as Hlast.
  { intros w0 H. apply os_mkdir_ok_inv in H. rewrite H, lookup_insert_eq. by eexists. }
  destruct rp as [|c head]; [apply Hlast|].
  cbn [makedirs_rev]. intros H.
  apply bind_ok_inv in H as (b & w0 & _ & H).
  apply bind_ok_inv in H as ([] & w2 & _ & H). by eapply Hlast.
Qed.

Lemma makefile_ok_inv p content w w' :
  makefile p content w = (Ok tt, w') → files w' = <[p:=File content]> (files w).
Proof.
  rewrite makefile_run, open_write_run.
  destruct (files w !! p) as [[|]|]; cbn zeta; [done| |].
  - intros [= <-]. cbn [files]. apply insert_insert_eq.
  - destruct (files w !! parent p) as [[|]|]; [|done..].
    intros [= <-]. cbn [files]. apply insert_insert_eq.
Qed.

(** Over a regular file, [makefile] cannot fail. *)
Lemma makefile_on_file p content w :
  is_file (files w !! p) = true →
  makefile p content w
  = (Ok tt, World (<[p:=File content]> (files w)) (trace w ++ [Truncate p; Store p content])).
Proof.
  intros H. rewrite makefile_run, open_write_run.
  destruct (files w !! p) as [[|]|]; [done| |done].
  cbn [files trace]. by rewrite insert_insert_eq, <- app_assoc.
Qed.

Lemma makedir_ok_inv p w w' :
  makedir p w = (Ok tt, w') → is_Some (files w' !! p).
Proof.
  unfold makedir, try_except. rewrite os_mkdir_run.
  destruct (files w !! p) as [n|] eqn:Hp.
  - intros [= <-]. by rewrite Hp.
  - destruct (files w !! parent p) as [[|]|].
    + intros [= <-]. cbn [files]. rewrite lookup_insert_eq. by eexists.
    + done.
    + unfold no_entry. by destruct (through_file _ _ _).
Qed.

(** Where something exists, [makedir] leaves everything as it is. *)
Lemma makedir_existing p w : is_Some (files w !! p) → makedir p w = (Ok tt, w).
Proof.
  intros [n Hp]. unfold makedir, try_except. by rewrite os_mkdir_run, Hp.
Qed.

Lemma lookup_insert_is_Some_keep (fs : gmap path node) (p q : path) (n : node) :
  is_Some (fs !! q) → is_Some (<[p:=n]> fs !! q).
Proof. intros H. rewrite lookup_insert_is_Some. destruct (decide (p = q)); auto. Qed.

(** After a member has been extracted, it is there and so is the directory
    it lies in. *)
Lemma extract_member_ok dest name entry w w' :
  extract_member dest (name, entry) w = (Ok tt, w') →
  is_Some (files w' !! parent (dest ++ name)%list)
  ∧ match entry with
    | TReg content => files w' !! (dest ++ name)%list = Some (File content)
    | TDir => is_Some (files w' !! (dest ++ name)%list)
    end.
Proof.
  unfold extract_member. cbn [fst snd]. intros H.
  apply bind_ok_inv in H as (upper_exists & w0 & Hex & H).
  rewrite os_path_exists_run in Hex. injection Hex as <- <-.
  apply bind_ok_inv in H as ([] & w1 & Hup & H).
  assert (is_Some (files w1 !! parent (dest ++ name)%list)) as Hupper.
  { case_bool_decide as Hdec; simpl in Hup.
    - by injection Hup as <-.
    - unfold os_makedirs in Hup. apply makedirs_ok_exists in Hup.
      by rewrite rev_involutive in Hup. }
  destruct entry as [|content].
  - split; [|by eapply makedir_ok_inv].
    assert (Hm := mutates_run _ _ _ _ _ _
                    (mutates_try_except _ _ _ is_FileExistsError (λ _, ret tt)
                       (mutates_os_mkdir (dest ++ name)%list)
                       (λ _, mutates_same _ _ (ret tt) (λ _, eq_refl))) H).
    by eapply fs_steps_is_Some.
  - apply makefile_ok_inv in H. rewrite H. split.
    + by apply lookup_insert_is_Some_keep.
    + apply lookup_insert_eq.
Qed.

(** Extracting a member over an earlier extraction of it: nothing is made,
    a regular member is rewritten in place. *)
Lemma extract_member_again dest name entry t :
  is_Some (files t !! parent (dest ++ name)%list) →
  match entry with
  | TReg _ => is_file (files t !! (dest ++ name)%list) = true
  | TDir => is_Some (files t !! (dest ++ name)%list)
  end →
  ∃ evs,
    extract_member dest (name, entry) t
    = (Ok tt,
       World match entry with
             | TReg content => <[(dest ++ name)%list:=File content]> (files t)
             | TDir => files t
             end
             (trace t ++ evs)).
Proof.
  intros Hupper Hthere. unfold extract_member. cbn [fst snd].
  rewrite bind_run, os_path_exists_run, bool_decide_true by done.
  rewrite bind_run. cbn [unless]. unfold ret at 1. destruct entry as [|content].
  - rewrite makedir_existing by done. exists []. rewrite app_nil_r. by destruct t.
  - rewrite makefile_on_file by done. by eexists.
Qed.

Lemma written_cons dest name entry members p :
  written dest ((name, entry) :: members) p
  ↔ (p = (dest ++ name)%list ∧ ∃ content, entry = TReg content) ∨ written dest members p.
Proof.
  unfold written. split.
  - intros (name' & content & Hin & ->). apply elem_of_cons in Hin as [[= -> <-]|Hin].
    + left. eauto.
    + right. eauto.
  - intros [[-> [content ->]]|(name' & content & Hin & ->)].
    + exists name, content. split; [left | done].
    + exists name', content. split; [by right | done].
Qed.

Lemma written_dec dest members p : written dest members p ∨ ¬ written dest members p.
Proof.
  induction members as [|[name entry] members IH].
  - right. intros (? & ? & Hin & _). by apply elem_of_nil in Hin.
  - destruct IH as [IH|IH]; [left; apply written_cons; by right|].
    destruct (decide (p = (dest ++ name)%list)) as [->|Hne]; destruct entry as [|content].
    + right. rewrite written_cons. intros [[_ [? ?]]|?]; done.
    + left. apply written_cons. left. eauto.
    + right. rewrite written_cons. intros [[? _]|?]; done.
    + right. rewrite written_cons. intros [[? _]|?]; done.
Qed.

(** Extracting an archive into a directory that holds an earlier extraction
    of it (whatever else the file system holds, and whatever the extracted
    files were changed to since) succeeds, and leaves every path a regular
    member is written to as the earlier extraction left it and every other
    path as it is. *)
Lemma extractall_again dest members :
  ∀ s sE t,
    extractall members dest s = (Ok tt, sE) →
    (∀ p, is_Some (files sE !! p) → is_Some (files t !! p)) →
    (∀ p, is_file (files sE !! p) = true → is_file (files t !! p) = true) →
    ∃ t', extractall members dest t = (Ok tt, t')
          ∧ (∀ p, written dest members p → files t' !! p = files sE !! p)
          ∧ (∀ p, ¬ written dest members p → files t' !! p = files t !! p).
Proof.
  induction members as [|[name entry] members IH]; intros s sE t Hrun Hsome Hfile.
  - exists t. split; [done|]. split; [|done].
    intros p (? & ? & Hin & _). by apply elem_of_nil in Hin.
  - unfold extractall in Hrun. cbn [for_each] in Hrun.
    apply bind_ok_inv in Hrun as ([] & s1 & Hfirst & Hrest).
    fold (extractall members dest) in Hrest.
    assert (Hsteps := mutates_run _ _ _ _ _ _ (mutates_extractall dest members) Hrest).
    destruct (extract_member_ok _ _ _ _ _ Hfirst) as [Hupper Hthere].
    destruct (extract_member_again dest name entry t) as [evs Hagain].
    { apply Hsome. by eapply fs_steps_is_Some. }
    { destruct entry as [|content].
      - apply Hsome. by eapply fs_steps_is_Some.
      - apply Hfile. eapply fs_steps_is_file; [done|]. by rewrite Hthere. }
    set (t1 := World match entry with
                     | TReg content => <[(dest ++ name)%list:=File content]> (files t)
                     | TDir => files t
                     end (trace t ++ evs)) in *.
    assert (∀ p, is_Some (files t !! p) → is_Some (files t1 !! p)) as Hsome1.
    { intros p Hp. unfold t1. cbn [files]. destruct entry; [done|].
      by apply lookup_insert_is_Some_keep. }
    assert (∀ p, is_file (files t !! p) = true → is_file (files t1 !! p) = true) as Hfile1.
    { intros p Hp. unfold t1. cbn [files]. destruct entry as [|content]; [done|].
      destruct (decide ((dest ++ name)%list = p)) as [<-|Hne].
      - by rewrite lookup_insert_eq.
      - by rewrite lookup_insert_ne. }
    destruct (IH s1 sE t1 Hrest) as (t' & Hrun' & Hw & Hnw); [by auto..|].
    exists t'. split; [|split].
    + unfold extractall. cbn [for_each]. by rewrite (bind_ok _ _ _ _ _ Hagain).
    + intros p Hp. destruct (written_dec dest members p) as [Hin|Hnin]; [by apply Hw|].
      apply written_cons in Hp as [[-> [content ->]]|Hp]; [|done].
      rewrite Hnw by done. unfold t1. cbn [files]. rewrite lookup_insert_eq.
      symmetry. by eapply fs_steps_keep.
    + intros p Hp. rewrite written_cons in Hp.
      rewrite Hnw by tauto. unfold t1. cbn [files].
      destruct entry as [|content]; [done|].
      apply lookup_insert_ne. intros <-. apply Hp. left. eauto.
Qed.

Lemma pickled_metrics_ext (fs1 fs2 : gmap path node) metrics :
  pickled_metrics fs1 = Ok metrics → fs2 !! model_pkl = fs1 !! model_pkl →
  pickled_metrics fs2 = Ok metrics.
Proof.
  unfold pickled_metrics. intros H ->. by destruct (fs1 !! model_pkl) as [[|]|].
Qed.

(** The run up to line 56, forwards: what it takes to load the metrics. *)
Lemma load_stage_run h w members fsE metrics :
  pip_returncode h = 0 → imports_resolve h = true →
  files w !! model_dir = Some Dir →
  files w !! model_path = Some (File (TarGz members)) →
  (∀ tr, ∃ t', extractall members model_dir (World (files w) tr) = (Ok tt, t')
               ∧ files t' = fsE) →
  fsE !! model_dir = Some Dir →
  pickled_metrics fsE = Ok metrics →
  ∃ trL, load_stage h w = (Ok metrics, World fsE trL).
Proof.
  intros Hpip Himp Hdir Harch Hext HdirE Hpm.
  unfold load_stage. rewrite bind_run, bootstrap_run, Hpip, Himp. cbn [Z.eqb].
  rewrite bind_run. destruct (announce_run w) as [evs0 ->]. rewrite Hdir.
  rewrite bind_run, extract_run. cbn [files]. rewrite Harch.
  destruct (Hext (trace w ++ evs0)%list) as (t' & -> & Ht').
  rewrite bind_run. destruct (relist_run t') as [evs1 ->]. rewrite Ht', HdirE.
  rewrite load_result_metrics_run. cbn [files]. rewrite Hpm. by eexists.
Qed.

Lemma below_model_not_above_output (p : path) :
  below_model p → ¬ p `prefix_of` output_dir.
Proof. intros [k ->] [k' H]. by simplify_eq/=. Qed.

Lemma below_model_not_evaluation (p : path) : below_model p → p ≠ evaluation_path.
Proof. intros [k ->] H. by simplify_eq/=. Qed.

(** ** What the stages record in the trace *)

Section acts_at_facts.
Context {A : Type}.
Implicit Types (P : path → Prop).

Lemma acts_at_silent P (m : M A) : (∀ w, trace (m w).2 = trace w) → acts_at P m.
Proof. intros H w. exists []. by rewrite H, app_nil_r. Qed.

Lemma acts_at_mono P Q (m : M A) : (∀ p, P p → Q p) → acts_at P m → acts_at Q m.
Proof.
  intros HPQ H w. destruct (H w) as (evs & E & Hevs). exists evs. split; [done|].
  eapply Forall_impl; [done|]. intros [] ?; simpl in *; auto.
Qed.

Lemma acts_at_bind {B} P (m : M A) (k : A → M B) :
  acts_at P m → (∀ a, acts_at P (k a)) → acts_at P (m ≫= k).
Proof.
  intros Hm Hk w. rewrite bind_run. destruct (Hm w) as (evs & E & Hevs).
  destruct (m w) as [[a|e] w0]; cbn [snd] in *; [|by exists evs].
  destruct (Hk a w0) as (evs' & E' & Hevs'). exists (evs ++ evs')%list.
  split; [by rewrite E', E, app_assoc | by apply Forall_app].
Qed.

Lemma acts_at_try_except P (m : M A) handles handler :
  acts_at P m → (∀ e, acts_at P (handler e)) → acts_at P (try_except m handles handler).
Proof.
  intros Hm Hh w. unfold try_except. destruct (Hm w) as (evs & E & Hevs).
  destruct (m w) as [[a|e] w0]; cbn [snd] in *; [by exists evs|].
  destruct (handles e); [|by exists evs].
  destruct (Hh e w0) as (evs' & E' & Hevs'). exists (evs ++ evs')%list.
  split; [by rewrite E', E, app_assoc | by apply Forall_app].
Qed.

Lemma acts_at_run P (m : M A) w r w' :
  acts_at P m → m w = (r, w') →
  ∃ evs, trace w' = (trace w ++ evs)%list ∧ Forall (event_at P) evs.
Proof. intros H E. specialize (H w). by rewrite E in H. Qed.

End acts_at_facts.

Lemma acts_at_emit P ev : event_at P ev → acts_at P (emit ev).
Proof. intros H w. exists [ev]. split; [done | by constructor]. Qed.

Lemma acts_at_for_each {A} P (l : list A) (body : A → M unit) :
  (∀ x, acts_at P (body x)) → acts_at P (for_each l body).
Proof.
  intros H. induction l as [|x l IH]; simpl; [by apply acts_at_silent|].
  apply acts_at_bind; [apply H | by intros _].
Qed.

Lemma acts_at_unless P b (m : M unit) : acts_at P m → acts_at P (unless b m).
Proof. intros H. destruct b; simpl; [by apply acts_at_silent | done]. Qed.

Lemma acts_at_logger_log P msg args : acts_at P (logger_log msg args).
Proof.
  unfold logger_log. destruct args; [by apply acts_at_emit|].
  destruct (percent_format _ _); by apply acts_at_emit.
Qed.

Lemma acts_at_os_mkdir p : acts_at (eq p) (os_mkdir p).
Proof.
  intros w. rewrite os_mkdir_run.
  destruct (files w !! p); [exists []; by rewrite app_nil_r|].
  destruct (files w !! parent p) as [[|]|]; [|exists []; by rewrite app_nil_r..].
  exists [Mkdir p]. split; [done | by constructor].
Qed.

Lemma acts_at_makefile p content : acts_at (eq p) (makefile p content).
Proof.
  intros w. rewrite makefile_run, open_write_run.
  assert (Forall (event_at (eq p)) [Truncate p; Store p content]) as Hevs
    by (by repeat constructor).
  destruct (files w !! p) as [[|]|]; cbn [snd trace].
  - exists []. by rewrite app_nil_r.
  - eexists. split; [by rewrite <- app_assoc | done].
  - destruct (files w !! parent p) as [[|]|]; cbn [snd trace];
      [|exists []; by rewrite app_nil_r..].
    eexists. split; [by rewrite <- app_assoc | done].
Qed.

Lemma acts_at_makedir p : acts_at (eq p) (makedir p).
Proof.
  apply acts_at_try_except; [apply acts_at_os_mkdir | intros; by apply acts_at_silent].
Qed.

Lemma acts_at_makedirs_rev rp : acts_at (λ p, p `prefix_of` rev rp) (makedirs_rev rp).
Proof.
  induction rp as [|c head IH]; simpl makedirs_rev.
  - eapply acts_at_mono; [|apply acts_at_os_mkdir]. by intros ? <-.
  - apply acts_at_bind; [by apply acts_at_silent|]. intros head_exists.
    apply acts_at_bind.
    + apply acts_at_unless, acts_at_try_except; [|intros; by apply acts_at_silent].
      eapply acts_at_mono; [|apply IH]. intros p Hp. simpl. by apply prefix_app_r.
    + intros _. eapply acts_at_mono; [|apply acts_at_os_mkdir]. by intros ? <-.
Qed.

Lemma acts_at_mkdir_plain p exist_ok : acts_at (eq p) (mkdir_plain p exist_ok).
Proof.
  apply acts_at_try_except; [apply acts_at_os_mkdir|].
  intros e. destruct (is_FileNotFoundError e); [by apply acts_at_silent|].
  apply acts_at_bind; [by apply acts_at_silent|].
  intros isdir. destruct (exist_ok && isdir); by apply acts_at_silent.
Qed.

Lemma acts_at_mkdir_parents_rev rp exist_ok :
  acts_at (λ p, p `prefix_of` rev rp) (mkdir_parents_rev rp exist_ok).
Proof.
  revert exist_ok. induction rp as [|c rparent IH]; intros exist_ok;
    rewrite mkdir_parents_rev_unfold;
    (apply acts_at_try_except;
     [eapply acts_at_mono; [|apply acts_at_os_mkdir]; by intros ? <-|]);
    intros e; destruct (is_FileNotFoundError e);
    try (apply acts_at_bind; [by apply acts_at_silent|];
         intros isdir; destruct (exist_ok && isdir); by apply acts_at_silent).
  - by apply acts_at_silent.
  - apply acts_at_bind.
    + eapply acts_at_mono; [|apply IH]. intros p Hp. simpl. by apply prefix_app_r.
    + intros _. eapply acts_at_mono; [|apply acts_at_mkdir_plain]. by intros ? <-.
Qed.

Lemma acts_at_pathlib_mkdir p exist_ok :
  acts_at (λ q, q `prefix_of` p) (pathlib_mkdir p true exist_ok).
Proof.
  unfold pathlib_mkdir. eapply acts_at_mono; [|apply acts_at_mkdir_parents_rev].
  intros q. by rewrite rev_involutive.
Qed.

Lemma acts_at_extract_member dest member :
  acts_at (near dest) (extract_member dest member).
Proof.
  unfold extract_member. apply acts_at_bind; [by apply acts_at_silent|].
  intros upper_exists. apply acts_at_bind.
  - apply acts_at_unless. unfold os_makedirs.
    eapply acts_at_mono; [|apply acts_at_makedirs_rev].
    intros p. rewrite rev_involutive. intros Hp.
    eapply near_prefix_app. etrans; [done | apply parent_prefix].
  - intros _. destruct (member.2) as [|content].
    + eapply acts_at_mono; [|apply acts_at_makedir].
      intros ? <-. left. by apply prefix_app_r.
    + eapply acts_at_mono; [|apply acts_at_makefile].
      intros ? <-. left. by apply prefix_app_r.
Qed.

Lemma acts_at_extract : acts_at (near model_dir) extract.
Proof.
  apply acts_at_bind.
  - apply acts_at_silent. intros w. rewrite tarfile_open_run. by repeat case_match.
  - intros members. apply acts_at_for_each. intros member. apply acts_at_extract_member.
Qed.

Lemma acts_at_announce P : acts_at P announce.
Proof.
  apply acts_at_bind; [apply acts_at_logger_log|]. intros _.
  apply acts_at_bind.
  - apply acts_at_silent. intros w. rewrite os_listdir_run. by repeat case_match.
  - intros names. apply acts_at_bind; [|intros _; apply acts_at_logger_log].
    apply acts_at_for_each. intros file. apply acts_at_logger_log.
Qed.

Lemma acts_at_relist P : acts_at P relist.
Proof.
  apply acts_at_bind.
  - apply acts_at_silent. intros w. rewrite os_listdir_run. by repeat case_match.
  - intros names. apply acts_at_for_each. intros file. apply acts_at_logger_log.
Qed.

Lemma acts_at_bootstrap P h : acts_at P (bootstrap h).
Proof. apply acts_at_silent. intros w. rewrite bootstrap_run. by repeat case_match. Qed.

Lemma acts_at_before_extract P h : acts_at P (before_extract h).
Proof.
  apply acts_at_bind; [apply acts_at_bootstrap | intros _; apply acts_at_announce].
Qed.

Lemma before_extract_files h w : files (before_extract h w).2 = files w.
Proof.
  unfold before_extract. rewrite bind_run.
  assert (H := bootstrap_files h w). destruct (bootstrap h w) as [[[]|] w0]; [|done].
  cbn [snd] in H. by rewrite announce_files.
Qed.

Lemma acts_at_load_stage h : acts_at (near model_dir) (load_stage h).
Proof.
  apply acts_at_bind; [apply acts_at_bootstrap|]; intros _.
  apply acts_at_bind; [apply acts_at_announce|]; intros _.
  apply acts_at_bind; [apply acts_at_extract|]; intros _.
  apply acts_at_bind; [apply acts_at_relist|]; intros _.
  apply acts_at_silent. intros w. by rewrite load_result_metrics_run.
Qed.

Lemma acts_at_lookup_metrics P metrics : acts_at P (lookup_metrics metrics).
Proof.
  intros w. rewrite lookup_metrics_run. cbn zeta.
  exists [Stdout "extracting metrics."].
  split; [by repeat case_match | by repeat constructor].
Qed.

Lemma no_event_at_output (evs : list event) :
  Forall (event_at (near model_dir)) evs →
  (Mkdir output_dir ∉ evs) ∧ (Truncate evaluation_path ∉ evs)
  ∧ ∀ content, Store evaluation_path content ∉ evs.
Proof.
  intros H. rewrite Forall_forall in H.
  split; [|split; [|intros content]]; intros Hin; apply H in Hin; simpl in Hin.
  - by apply output_dir_not_near.
  - by apply evaluation_path_not_near.
  - by apply evaluation_path_not_near.
Qed.

(** ** Member names: stored names and plain names *)

Lemma bind_cong {A B} (m m' : M A) (k k' : A → M B) w :
  m w = m' w → (∀ a w0, k a w0 = k' a w0) → (m ≫= k) w = (m' ≫= k') w.
Proof.
  intros Hm Hk. rewrite !bind_run, Hm. destruct (m' w) as [[a|e] w0]; [apply Hk | done].
Qed.

Lemma walk_app fs (cur pre raw : path) :
  Forall (λ c, c ≠ "." ∧ c ≠ "..") pre →
  walk fs cur (pre ++ raw) = walk fs (cur ++ pre)%list raw.
Proof.
  revert cur. induction pre as [|c pre IH]; intros cur H; simpl.
  - by rewrite app_nil_r.
  - apply Forall_cons in H as [[Hdot Hup] H]. rewrite !bool_decide_false by done. simpl.
    rewrite IH by done. by rewrite <- app_assoc.
Qed.

Lemma walk_plain fs (cur raw : path) :
  Forall (λ c, c ≠ "." ∧ c ≠ "..") raw → walk fs cur raw = Ok (cur ++ raw)%list.
Proof.
  intros H. rewrite <- (app_nil_r raw) at 1. by rewrite walk_app.
Qed.

Lemma at_path_run {A} (p : path) (call : path → M A) w :
  at_path p call w =
    match walk (files w) [] p with
    | Ok q =>
        match call q w with
        | (Raise e, w') => (Raise (if is_OSError e then with_filename p e else e), w')
        | r => r
        end
    | Raise e => (Raise (with_filename p e), w)
    end.
Proof.
  unfold at_path, resolve, try_except. rewrite !bind_run. cbn.
  destruct (walk (files w) [] p) as [q|e]; cbn; [|done].
  destruct (call q w) as [[a|e] w']; [done|]. by destruct (is_OSError e).
Qed.

Lemma at_path_plain {A} (p : path) (call : path → M A) w :
  Forall (λ c, c ≠ "." ∧ c ≠ "..") p →
  (∀ e w', call p w = (Raise e, w') → with_filename p e = e) →
  at_path p call w = call p w.
Proof.
  intros Hp Herr. rewrite at_path_run, walk_plain by done. simpl.
  destruct (call p w) as [[a|e] w'] eqn:E; [done|].
  rewrite (Herr e w') by done. by destruct (is_OSError e).
Qed.

Lemma os_mkdir_raw_plain (p : path) w :
  Forall (λ c, c ≠ "." ∧ c ≠ "..") p → os_mkdir_raw p w = os_mkdir p w.
Proof.
  intros Hp. apply at_path_plain; [done|]. intros e w'. rewrite os_mkdir_run.
  unfold no_entry. repeat case_match; by intros [= <- _].
Qed.

Lemma makefile_raw_plain (p : path) content w :
  Forall (λ c, c ≠ "." ∧ c ≠ "..") p → makefile_raw p content w = makefile p content w.
Proof.
  intros Hp. apply (at_path_plain p (λ q, makefile q content)); [done|]. intros e w'.
  rewrite makefile_run, open_write_run. cbn zeta. unfold no_entry.
  destruct (files w !! p) as [[|?]|]; [by intros [= <- _] | done |].
  destruct (files w !! parent p) as [[|?]|]; [done | by intros [= <- _] |].
  destruct (through_file _ _ _); by intros [= <- _].
Qed.

Lemma os_path_exists_raw_plain (p : path) w :
  Forall (λ c, c ≠ "." ∧ c ≠ "..") p → os_path_exists_raw p w = os_path_exists p w.
Proof.
  intros Hp. unfold os_path_exists_raw, try_except.
  rewrite at_path_plain; [|done|]; by rewrite os_path_exists_run.
Qed.

Lemma makedirs_raw_rev_plain (rp : list string) :
  Forall (λ c, c ≠ "." ∧ c ≠ "..") rp → ∀ w, makedirs_raw_rev rp w = makedirs_rev rp w.
Proof.
  induction rp as [|c head IH]; intros Hrp w; simpl.
  - by apply os_mkdir_raw_plain.
  - apply Forall_cons in Hrp as [[Hdot Hup] Hhead].
    assert (∀ w1, os_mkdir_raw (rev head ++ [c]) w1 = os_mkdir (rev head ++ [c]) w1) as Hlast.
    { intros w1. apply os_mkdir_raw_plain, Forall_app. split; [by apply Forall_rev|].
      by repeat constructor. }
    apply bind_cong; [by apply os_path_exists_raw_plain, Forall_rev|].
    intros [|] w0.
    + by rewrite bind_run.
    + rewrite bool_decide_false by done. simpl. apply bind_cong; [|by intros _].
      unfold try_except. by rewrite IH.
Qed.

Lemma extract_member_raw_plain (dest : path) member w :
  Forall (λ c, c ≠ "." ∧ c ≠ "..") (dest ++ member.1)%list →
  extract_member_raw dest member w = extract_member dest member w.
Proof.
  intros Hp. unfold extract_member_raw, extract_member.
  assert (Forall (λ c, c ≠ "." ∧ c ≠ "..") (parent (dest ++ member.1)%list)) as Hup
    by by apply Forall_take.
  apply bind_cong; [by apply os_path_exists_raw_plain|].
  intros upper_exists w0. apply bind_cong.
  - destruct upper_exists; [done|]. simpl. unfold os_makedirs_raw, os_makedirs.
    by apply makedirs_raw_rev_plain, Forall_rev.
  - intros _ w1. destruct (member.2) as [|content].
    + unfold makedir_raw, makedir, try_except. by rewrite os_mkdir_raw_plain.
    + by apply makefile_raw_plain.
Qed.

Lemma plain_name_dots (name : path) :
  plain_name name = true → Forall (λ c, c ≠ "." ∧ c ≠ "..") name.
Proof.
  unfold plain_name. rewrite forallb_forall, Forall_forall.
  intros H c Hc. apply list_elem_of_In, H in Hc. split; by intros ->.
Qed.

Lemma model_dir_dots : Forall (λ c, c ≠ "." ∧ c ≠ "..") model_dir.
Proof. by repeat constructor. Qed.

(** On members with plain names [tarfile] does what [extractall] says. *)
Lemma extractall_raw_plain members w :
  plain_members members = true →
  extractall_raw members model_dir w = extractall members model_dir w.
Proof.
  revert w. induction members as [|member members IH]; intros w H; [done|].
  apply andb_prop in H as [Hname Hrest].
  unfold extractall_raw, extractall. cbn [for_each]. apply bind_cong.
  - apply extract_member_raw_plain, Forall_app. split; [apply model_dir_dots|].
    by apply plain_name_dots.
  - intros _ w0. by apply IH.
Qed.

Lemma extract_raw_plain w : plain_archive (files w) → extract_raw w = extract w.
Proof.
  intros H. unfold extract_raw, extract. rewrite !bind_run, tarfile_open_run.
  unfold plain_archive in H.
  destruct (files w !! model_path) as [[|[| |members]]|]; try done.
  by apply extractall_raw_plain.
Qed.

(** On an archive whose members have plain names, the run with the names
    as stored is the run of [script]. *)
Lemma script_raw_plain h w : plain_archive (files w) → script_raw h w = script h w.
Proof.
  intros H. unfold script_raw, script. rewrite !bind_run.
  assert (Hfs := bootstrap_files h w).
  destruct (bootstrap h w) as [[[]|e] w0]; [|done]. cbn [snd] in Hfs.
  unfold main_raw, main. rewrite !bind_run.
  assert (Hfs' := announce_files w0).
  destruct (announce w0) as [[[]|e] w1]; [|done]. cbn [snd] in Hfs'.
  apply bind_cong; [|done]. apply extract_raw_plain. by rewrite Hfs', Hfs.
Qed.

Lemma load_stage_raw_plain h w :
  plain_archive (files w) → load_stage_raw h w = load_stage h w.
Proof.
  intros H. unfold load_stage_raw, load_stage. rewrite !bind_run.
  assert (Hfs := bootstrap_files h w).
  destruct (bootstrap h w) as [[[]|e] w0]; [|done]. cbn [snd] in Hfs.
  rewrite !bind_run. assert (Hfs' := announce_files w0).
  destruct (announce w0) as [[[]|e] w1]; [|done]. cbn [snd] in Hfs'.
  apply bind_cong; [|done]. apply extract_raw_plain. by rewrite Hfs', Hfs.
Qed.

(** ** Member names that stay below the extraction directory *)

Lemma walk_confined fs (dest : path) raw :
  ∀ k q, confined (length k) raw = true → walk fs (dest ++ k) raw = Ok q →
         dest `prefix_of` q.
Proof.
  induction raw as [|c raw IH]; intros k q Hc Hw.
  - injection Hw as <-. by apply prefix_app_r.
  - cbn [walk confined] in Hc, Hw.
    destruct (bool_decide (c = "..")) eqn:Hup.
    + destruct k as [|x k _] using rev_ind; [done|].
      rewrite length_app, Nat.add_1_r in Hc. cbn [orb] in Hw.
      destruct (fs !! (dest ++ k ++ [x])%list) as [[|]|]; try done.
      rewrite app_assoc, parent_snoc in Hw. by eapply IH.
    + destruct (bool_decide (c = ".")) eqn:Hdot; cbn [orb] in Hw.
      * destruct (fs !! (dest ++ k)%list) as [[|]|]; try done. by eapply IH.
      * apply andb_prop in Hc as [_ Hc]. rewrite <- app_assoc in Hw.
        eapply (IH (k ++ [c])%list); [|done]. by rewrite length_app, Nat.add_1_r.
Qed.

Lemma confined_take name : ∀ d n, confined d name = true → confined d (take n name) = true.
Proof.
  induction name as [|c name IH]; intros d n H; [by destruct n|].
  destruct n as [|n]; [done|]. cbn [take confined] in *.
  destruct (bool_decide (c = "..")); [destruct d; [done | by apply IH]|].
  destruct (bool_decide (c = ".")); [by apply IH|].
  apply andb_prop in H as [Hc H]. rewrite Hc. by apply IH.
Qed.

Lemma resolves_below_join (dest name : path) fs q :
  Forall (λ c, c ≠ "." ∧ c ≠ "..") dest → confined 0 name = true →
  walk fs [] (dest ++ name) = Ok q → dest `prefix_of` q.
Proof.
  intros Hd Hc. rewrite walk_app by done. cbn [app]. intros Hw.
  apply (walk_confined fs dest name [] q); [done|]. by rewrite app_nil_r.
Qed.

Lemma resolves_near_join (dest name : path) :
  Forall (λ c, c ≠ "." ∧ c ≠ "..") dest → confined 0 name = true →
  resolves_near dest (dest ++ name).
Proof.
  intros Hd Hc n fs q Hw. destruct (decide (n ≤ length dest)%nat) as [Hn|Hn].
  - rewrite take_app_le in Hw by done. rewrite walk_plain in Hw by by apply Forall_take.
    injection Hw as <-. right. cbn [app]. apply prefix_take.
  - rewrite take_app_ge in Hw by lia. left.
    eapply resolves_below_join; [done| |done]. by apply confined_take.
Qed.

Lemma resolves_near_take (dest p : path) m :
  resolves_near dest p → resolves_near dest (take m p).
Proof. intros H n fs q. rewrite take_take. apply H. Qed.

Lemma resolves_near_whole (dest p : path) fs q :
  resolves_near dest p → walk fs [] p = Ok q → near dest q.
Proof. intros H Hw. apply (H (length p) fs). by rewrite firstn_all. Qed.

Lemma os_path_exists_raw_world p w : (os_path_exists_raw p w).2 = w.
Proof.
  unfold os_path_exists_raw, try_except. rewrite at_path_run.
  destruct (walk (files w) [] p) as [q|e].
  - by rewrite os_path_exists_run.
  - by destruct (is_OSError (with_filename p e)).
Qed.

Lemma mutates_at_path_in {A} C W (P : path → Prop) (p : path) (call : path → M A) :
  (∀ fs q, walk fs [] p = Ok q → P q) →
  (∀ q, P q → mutates C W (call q)) →
  mutates C W (at_path p call).
Proof.
  intros HP Hcall w. rewrite at_path_run.
  destruct (walk (files w) [] p) as [q|e] eqn:E; [|constructor].
  specialize (Hcall q (HP _ _ E) w). by destruct (call q w) as [[a|e] w'].
Qed.

Lemma acts_at_at_path_in {A} Q (P : path → Prop) (p : path) (call : path → M A) :
  (∀ fs q, walk fs [] p = Ok q → P q) →
  (∀ q, P q → acts_at Q (call q)) →
  acts_at Q (at_path p call).
Proof.
  intros HP Hcall w. rewrite at_path_run.
  destruct (walk (files w) [] p) as [q|e] eqn:E; [|exists []; by rewrite app_nil_r].
  specialize (Hcall q (HP _ _ E) w). by destruct (call q w) as [[a|e] w'].
Qed.

Section confined_extraction.
Variable dest : path.
Hypothesis dest_dots : Forall (λ c, c ≠ "." ∧ c ≠ "..") dest.

Lemma mutates_os_mkdir_raw_near p :
  resolves_near dest p → mutates (near dest) nowhere (os_mkdir_raw p).
Proof.
  intros H. apply (mutates_at_path_in _ _ (near dest)).
  - intros fs q. by apply resolves_near_whole.
  - intros q Hq. eapply mutates_mono; [| |apply mutates_os_mkdir]; [by intros ? <- | done].
Qed.

Lemma acts_at_os_mkdir_raw_near p :
  resolves_near dest p → acts_at (near dest) (os_mkdir_raw p).
Proof.
  intros H. apply (acts_at_at_path_in _ (near dest)).
  - intros fs q. by apply resolves_near_whole.
  - intros q Hq. eapply acts_at_mono; [|apply acts_at_os_mkdir]. by intros ? <-.
Qed.

Lemma resolves_near_head c (head : list string) :
  resolves_near dest (rev (c :: head)) → resolves_near dest (rev head).
Proof.
  intros H. replace (rev head) with (take (length (rev head)) (rev (c :: head))).
  - by apply resolves_near_take.
  - simpl. by rewrite take_app_length.
Qed.

Lemma mutates_makedirs_raw_rev_near rp :
  resolves_near dest (rev rp) → mutates (near dest) nowhere (makedirs_raw_rev rp).
Proof.
  induction rp as [|c head IH]; intros H; simpl makedirs_raw_rev.
  - by apply mutates_os_mkdir_raw_near.
  - apply mutates_bind.
    { apply mutates_same. intros w. by rewrite os_path_exists_raw_world. }
    intros [|]; [by apply mutates_os_mkdir_raw_near|].
    apply mutates_bind.
    + apply mutates_try_except; [|intros; by apply mutates_same].
      by eapply IH, resolves_near_head.
    + intros _. case_bool_decide; [by apply mutates_same|].
      by apply mutates_os_mkdir_raw_near.
Qed.

Lemma acts_at_makedirs_raw_rev_near rp :
  resolves_near dest (rev rp) → acts_at (near dest) (makedirs_raw_rev rp).
Proof.
  induction rp as [|c head IH]; intros H; simpl makedirs_raw_rev.
  - by apply acts_at_os_mkdir_raw_near.
  - apply acts_at_bind.
    { apply acts_at_silent. intros w. by rewrite os_path_exists_raw_world. }
    intros [|]; [by apply acts_at_os_mkdir_raw_near|].
    apply acts_at_bind.
    + apply acts_at_try_except; [|intros; by apply acts_at_silent].
      by eapply IH, resolves_near_head.
    + intros _. case_bool_decide; [by apply acts_at_silent|].
      by apply acts_at_os_mkdir_raw_near.
Qed.

Lemma mutates_extract_member_raw member :
  confined 0 member.1 = true →
  mutates (near dest) (λ p, dest `prefix_of` p) (extract_member_raw dest member).
Proof using dest_dots.
  intros Hc. assert (Hres := resolves_near_join dest member.1 dest_dots Hc).
  unfold extract_member_raw. apply mutates_bind.
  { apply mutates_same. intros w. by rewrite os_path_exists_raw_world. }
  intros upper_exists. apply mutates_bind.
  - apply mutates_unless. unfold os_makedirs_raw.
    eapply mutates_mono; [| |apply mutates_makedirs_raw_rev_near]; [done | by intros ? [] |].
    rewrite rev_involutive. by apply resolves_near_take.
  - intros _. destruct (member.2) as [|content].
    + apply mutates_try_except; [|intros; by apply mutates_same].
      eapply mutates_mono; [| |by apply mutates_os_mkdir_raw_near]; [done | by intros ? []].
    + apply (mutates_at_path_in _ _ (λ q, dest `prefix_of` q)).
      * intros fs q. by apply resolves_below_join.
      * intros q Hq. eapply mutates_mono; [| |apply mutates_makefile];
          [intros ? <-; by left | by intros ? <-].
Qed.

Lemma acts_at_extract_member_raw member :
  confined 0 member.1 = true → acts_at (near dest) (extract_member_raw dest member).
Proof using dest_dots.
  intros Hc. assert (Hres := resolves_near_join dest member.1 dest_dots Hc).
  unfold extract_member_raw. apply acts_at_bind.
  { apply acts_at_silent. intros w. by rewrite os_path_exists_raw_world. }
  intros upper_exists. apply acts_at_bind.
  - apply acts_at_unless. unfold os_makedirs_raw. apply acts_at_makedirs_raw_rev_near.
    rewrite rev_involutive. by apply resolves_near_take.
  - intros _. destruct (member.2) as [|content].
    + apply acts_at_try_except; [|intros; by apply acts_at_silent].
      by apply acts_at_os_mkdir_raw_near.
    + apply (acts_at_at_path_in _ (near dest)).
      * intros fs q. by apply resolves_near_whole.
      * intros q Hq. eapply acts_at_mono; [|apply acts_at_makefile]. by intros ? <-.
Qed.

End confined_extraction.

Lemma confined_members_elem members member :
  confined_members members = true → member ∈ members → confined 0 member.1 = true.
Proof.
  unfold confined_members. rewrite forallb_forall. intros H Hin.
  by apply (H member), list_elem_of_In.
Qed.

Lemma mutates_extractall_raw_near members :
  confined_members members = true →
  mutates (near model_dir) below_model (extractall_raw members model_dir).
Proof.
  intros H. apply mutates_for_each. intros member Hin.
  apply mutates_extract_member_raw; [apply model_dir_dots|].
  by eapply confined_members_elem.
Qed.

Lemma acts_at_extractall_raw_near members :
  confined_members members = true →
  acts_at (near model_dir) (extractall_raw members model_dir).
Proof.
  induction members as [|member members IH]; intros H; unfold extractall_raw; simpl.
  - by apply acts_at_silent.
  - apply andb_prop in H as [Hname Hrest]. apply acts_at_bind.
    + by apply acts_at_extract_member_raw; [apply model_dir_dots|].
    + intros _. by apply IH.
Qed.

(** What the extraction does when no member name leads out of the model
    directory. *)
Lemma extract_raw_confined w :
  confined_archive (files w) →
  fs_steps (near model_dir) below_model (files w) (files (extract_raw w).2)
  ∧ ∃ evs, trace (extract_raw w).2 = (trace w ++ evs)%list
           ∧ Forall (event_at (near model_dir)) evs.
Proof.
  intros Hc. unfold extract_raw. rewrite bind_run, tarfile_open_run.
  unfold confined_archive in Hc.
  destruct (files w !! model_path) as [[|[| |members]]|];
    try (split; [constructor | exists []; by rewrite app_nil_r]).
  split; [by apply mutates_extractall_raw_near | by apply acts_at_extractall_raw_near].
Qed.

Section pointwise.
Context {A B : Type}.

Lemma fs_steps_bind C W (m : M A) (k : A → M B) w :
  fs_steps C W (files w) (files (m w).2) →
  (∀ a w0, m w = (Ok a, w0) → fs_steps C W (files w0) (files (k a w0).2)) →
  fs_steps C W (files w) (files ((m ≫= k) w).2).
Proof.
  rewrite bind_run. destruct (m w) as [[a|e] w0]; cbn [snd]; intros H1 H2; [|done].
  eapply fs_steps_trans; [done | by apply H2].
Qed.

Lemma trace_bind P (m : M A) (k : A → M B) w :
  (∃ evs, trace (m w).2 = (trace w ++ evs)%list ∧ Forall (event_at P) evs) →
  (∀ a w0, m w = (Ok a, w0) →
           ∃ evs, trace (k a w0).2 = (trace w0 ++ evs)%list ∧ Forall (event_at P) evs) →
  ∃ evs, trace ((m ≫= k) w).2 = (trace w ++ evs)%list ∧ Forall (event_at P) evs.
Proof.
  rewrite bind_run. destruct (m w) as [[a|e] w0]; cbn [snd]; intros (evs & E & Hevs) H2;
    [|by exists evs].
  destruct (H2 a w0) as (evs' & E' & Hevs'); [done|]. exists (evs ++ evs')%list.
  split; [by rewrite E', E, app_assoc | by apply Forall_app].
Qed.

End pointwise.

Lemma load_stage_raw_confined h w :
  confined_archive (files w) →
  fs_steps (near model_dir) below_model (files w) (files (load_stage_raw h w).2)
  ∧ ∃ evs, trace (load_stage_raw h w).2 = (trace w ++ evs)%list
           ∧ Forall (event_at (near model_dir)) evs.
Proof.
  intros Hc. unfold load_stage_raw. split.
  - apply fs_steps_bind; [apply mutates_same, bootstrap_files|]. intros [] w0 E0.
    assert (files w0 = files w) as Hf0 by (by rewrite <- (bootstrap_files h w), E0).
    apply fs_steps_bind; [apply mutates_same, announce_files|]. intros [] w1 E1.
    assert (files w1 = files w) as Hf1 by (by rewrite <- Hf0, <- (announce_files w0), E1).
    apply fs_steps_bind; [apply extract_raw_confined; by rewrite Hf1|]. intros [] w2 _.
    apply fs_steps_bind; [apply mutates_same, relist_files|]. intros [] w3 _.
    apply mutates_same. intros w4. by rewrite load_result_metrics_run.
  - apply trace_bind; [apply acts_at_bootstrap|]. intros [] w0 E0.
    assert (files w0 = files w) as Hf0 by (by rewrite <- (bootstrap_files h w), E0).
    apply trace_bind; [apply acts_at_announce|]. intros [] w1 E1.
    assert (files w1 = files w) as Hf1 by (by rewrite <- Hf0, <- (announce_files w0), E1).
    apply trace_bind; [apply extract_raw_confined; by rewrite Hf1|]. intros [] w2 _.
    apply trace_bind; [apply acts_at_relist|]. intros [] w3 _.
    apply acts_at_silent. intros w4. by rewrite load_result_metrics_run.
Qed.

Lemma script_raw_via_load h w : script_raw h w = (load_stage_raw h ≫= report_stage) w.
Proof.
  unfold script_raw, main_raw, load_stage_raw, report_stage. symmetry.
  rewrite bind_assoc. apply bind_ext; intros _ w1.
  rewrite bind_assoc. apply bind_ext; intros _ w2.
  rewrite bind_assoc. apply bind_ext; intros _ w3.
  rewrite bind_assoc. by apply bind_ext.
Qed.

Lemma script_raw_via_before_extract h w :
  script_raw h w =
    (before_extract h ;; extract_raw ;; relist ;; metrics ← load_result_metrics;
     report_stage metrics) w.
Proof. unfold script_raw, main_raw, before_extract. symmetry. by rewrite bind_assoc. Qed.
(** ** What [mkdir] records *)

Section only_mkdirs_facts.
Context {A : Type}.

Lemma only_mkdirs_silent (m : M A) : (∀ w, trace (m w).2 = trace w) → only_mkdirs m.
Proof. intros H w. exists []. by rewrite H, app_nil_r. Qed.

Lemma only_mkdirs_bind {B} (m : M A) (k : A → M B) :
  only_mkdirs m → (∀ a, only_mkdirs (k a)) → only_mkdirs (m ≫= k).
Proof.
  intros Hm Hk w. rewrite bind_run. destruct (Hm w) as (made & E).
  destruct (m w) as [[a|e] w0]; cbn [snd] in *; [|by exists made].
  destruct (Hk a w0) as (made' & E'). exists (made ++ made')%list.
  by rewrite E', E, map_app, app_assoc.
Qed.

Lemma only_mkdirs_try_except (m : M A) handles handler :
  only_mkdirs m → (∀ e, only_mkdirs (handler e)) → only_mkdirs (try_except m handles handler).
Proof.
  intros Hm Hh w. unfold try_except. destruct (Hm w) as (made & E).
  destruct (m w) as [[a|e] w0]; cbn [snd] in *; [by exists made|].
  destruct (handles e); [|by exists made].
  destruct (Hh e w0) as (made' & E'). exists (made ++ made')%list.
  by rewrite E', E, map_app, app_assoc.
Qed.

End only_mkdirs_facts.

Lemma only_mkdirs_os_mkdir p : only_mkdirs (os_mkdir p).
Proof.
  intros w. rewrite os_mkdir_run.
  destruct (files w !! p); [exists []; by rewrite app_nil_r|].
  destruct (files w !! parent p) as [[|]|]; [|exists []; by rewrite app_nil_r..].
  by exists [p].
Qed.

Lemma only_mkdirs_mkdir_plain p exist_ok : only_mkdirs (mkdir_plain p exist_ok).
Proof.
  apply only_mkdirs_try_except; [apply only_mkdirs_os_mkdir|].
  intros e. destruct (is_FileNotFoundError e); [by apply only_mkdirs_silent|].
  apply only_mkdirs_bind; [by apply only_mkdirs_silent|].
  intros isdir. destruct (exist_ok && isdir); by apply only_mkdirs_silent.
Qed.

Lemma only_mkdirs_mkdir_parents_rev rp exist_ok : only_mkdirs (mkdir_parents_rev rp exist_ok).
Proof.
  revert exist_ok. induction rp as [|c rparent IH]; intros exist_ok;
    rewrite mkdir_parents_rev_unfold;
    (apply only_mkdirs_try_except; [apply only_mkdirs_os_mkdir|]);
    intros e; destruct (is_FileNotFoundError e);
    try (apply only_mkdirs_bind; [by apply only_mkdirs_silent|];
         intros isdir; destruct (exist_ok && isdir); by apply only_mkdirs_silent).
  - by apply only_mkdirs_silent.
  - apply only_mkdirs_bind; [apply IH | intros _; apply only_mkdirs_mkdir_plain].
Qed.

(** The directories line 75 makes are the output directory and directories
    above it. *)
Lemma pathlib_mkdir_made p exist_ok w r w' :
  pathlib_mkdir p true exist_ok w = (r, w') →
  ∃ made, trace w' = (trace w ++ map Mkdir made)%list ∧ Forall (λ q, q `prefix_of` p) made.
Proof.
  intros E.
  destruct (acts_at_run _ _ _ _ _ (acts_at_pathlib_mkdir p exist_ok) E) as (evs & Htr & Hevs).
  unfold pathlib_mkdir in E.
  destruct (only_mkdirs_mkdir_parents_rev (rev p) exist_ok w) as (made & Hmade).
  rewrite E in Hmade. cbn [snd] in Hmade. exists made. split; [done|].
  rewrite Htr in Hmade. apply app_inv_head in Hmade as ->.
  clear -Hevs. induction made as [|q made IH]; [done|].
  apply Forall_cons in Hevs as [Hq Hevs]. constructor; [exact Hq | by apply IH].
Qed.

(** * The specification, sentence by sentence *)



(** C2.  Without [model.tar.gz] in the model directory the run dies of an
    uncaught exception and the exit status is not 0.  Up to then it has only
    logged: it has made no directory and opened or written no file, the
    file system is as it was and [evaluation.json] is not created. *)
Theorem missing_archive_fails h w :
  files w !! model_path = None →
  ∃ e w', script h w = (Raise e, w')
          ∧ exit_status (script h w).1 ≠ 0
          ∧ files w' = files w
          ∧ files w' !! evaluation_path = files w !! evaluation_path
          ∧ ∃ evs, trace w' = (trace w ++ evs)%list ∧ Forall (event_at nowhere) evs.
Proof.
  intros Hnone.
  assert (Hfs := before_extract_files h w).
  destruct (before_extract h w) as [[[]|e0] w0] eqn:E0; cbn [snd] in Hfs.
  - exists (no_entry (files w0) model_path), w0.
    assert (script h w = (Raise (no_entry (files w0) model_path), w0)) as E.
    { rewrite script_via_before_extract, (bind_ok _ _ _ _ _ E0).
      by rewrite bind_run, extract_run, Hfs, Hnone. }
    rewrite E, Hfs. do 4 (split; [done|]).
    exact (acts_at_run _ _ _ _ _ (acts_at_before_extract nowhere h) E0).
  - exists e0, w0.
    assert (script h w = (Raise e0, w0)) as E
      by by rewrite script_via_before_extract, (bind_raise _ _ _ _ _ E0).
    rewrite E, Hfs. do 4 (split; [done|]).
    exact (acts_at_run _ _ _ _ _ (acts_at_before_extract nowhere h) E0).
Qed.

Lemma missing_archive_fails_witness :
  ∃ e w', script host_ok (World (sample_files None) []) = (Raise e, w')
          ∧ files w' !! evaluation_path = None.
Proof.
  destruct (missing_archive_fails host_ok (World (sample_files None) []))
    as (e & w' & E & _ & _ & Hfile & _).
  - vm_compute. reflexivity.
  - exists e, w'. split; [exact E|]. rewrite Hfile. vm_compute. reflexivity.
Defined.

(** C3, as amended.  On an archive none of whose member names leads out of
    the model directory: when the metrics mapping of the loaded result lacks
    [valid-mae] or [valid-rmse], the run dies of the [KeyError] of the lookup with a
    non-zero exit status, right after the log line of line 60: nothing is
    written after the extraction, [evaluation.json] and the output directory
    are as they were before the run, and nothing the run did made that
    directory or opened or wrote that file. *)
Theorem missing_metric_fails h w entries wL :
  confined_archive (files w) →
  load_stage_raw h w = (Ok (PDict entries), wL) →
  dict_get entries "valid-mae" = None ∨ dict_get entries "valid-rmse" = None →
  ∃ k w', script_raw h w = (Raise (KeyError k), w')
          ∧ (k = "valid-mae" ∨ k = "valid-rmse")
          ∧ exit_status (script_raw h w).1 ≠ 0
          ∧ files w' = files wL
          ∧ trace w' = (trace wL ++ [Stdout "extracting metrics."])%list
          ∧ files w' !! evaluation_path = files w !! evaluation_path
          ∧ files w' !! output_dir = files w !! output_dir
          ∧ ∃ evs, trace w' = (trace w ++ evs)%list
                   ∧ (Mkdir output_dir ∉ evs) ∧ (Truncate evaluation_path ∉ evs)
                   ∧ ∀ content, Store evaluation_path content ∉ evs.
Proof.
  intros Hconf Hload Hmiss.
  destruct (load_stage_raw_confined h w Hconf) as (Hsteps & evsL & HtrL & HevsL).
  rewrite Hload in Hsteps, HtrL. cbn [snd] in Hsteps, HtrL.
  assert (∃ k, (k = "valid-mae" ∨ k = "valid-rmse")
               ∧ script_raw h w
                 = (Raise (KeyError k),
                    World (files wL) (trace wL ++ [Stdout "extracting metrics."])))
    as (k & Hk & E).
  { rewrite script_raw_via_load, (bind_ok _ _ _ _ _ Hload).
    unfold report_stage. rewrite bind_run, lookup_metrics_run. cbn [py_getitem].
    destruct (dict_get entries "valid-mae") as [mae|] eqn:Emae.
    - destruct Hmiss as [|Hrmse]; [done|]. rewrite Hrmse. eauto.
    - eauto. }
  exists k, (World (files wL) (trace wL ++ [Stdout "extracting metrics."])).
  rewrite E. cbn [fst files trace exit_status].
  do 5 (split; [done|]). split; [|split].
  - apply (fs_steps_untouched _ _ _ _ _ Hsteps); [apply evaluation_path_not_near|].
    apply below_output_not_model. by exists ["evaluation.json"].
  - apply (fs_steps_untouched _ _ _ _ _ Hsteps); [apply output_dir_not_near|].
    by apply below_output_not_model.
  - exists (evsL ++ [Stdout "extracting metrics."])%list.
    split; [by rewrite HtrL, app_assoc|].
    apply no_event_at_output, Forall_app. split; [done | by repeat constructor].
Qed.

(** C3, on a result whose metrics hold [valid-mae] only. *)
Lemma missing_metric_fails_witness :
  ∃ k w', script_raw host_ok
            (sample_world (PObj "Result" [("metrics", PDict [(PStr "valid-mae", PFloat 1.23)])]))
          = (Raise (KeyError k), w')
          ∧ files w' !! evaluation_path = None.
Proof.
  destruct (missing_metric_fails host_ok
              (sample_world (PObj "Result" [("metrics", PDict [(PStr "valid-mae", PFloat 1.23)])]))
              [(PStr "valid-mae", PFloat 1.23)]
              (load_stage_raw host_ok
                 (sample_world
                    (PObj "Result" [("metrics", PDict [(PStr "valid-mae", PFloat 1.23)])]))).2)
    as (k & w' & E & _ & _ & _ & _ & Hfile & _ & _).
  - vm_compute. reflexivity.
  - vm_compute. reflexivity.
  - right. reflexivity.
  - exists k, w'. split; [exact E|]. rewrite Hfile. vm_compute. reflexivity.
Defined.

(** C3 as stated fails.  The archive names a regular member
    [../evaluation/evaluation.json]: [extractall] writes it beside the model
    directory.  The metrics lack [valid-rmse], so the run dies of the
    [KeyError] with exit status 1, and [evaluation.json], which was not there
    before, has been produced in that run. *)
Lemma missing_metric_after_planted_report :
  files (World (sample_files (Some archive_planting_report)) []) !! evaluation_path = None
  ∧ (script_raw host_ok (World (sample_files (Some archive_planting_report)) [])).1
    = Raise (KeyError "valid-rmse")
  ∧ exit_status (script_raw host_ok (World (sample_files (Some archive_planting_report)) [])).1
    = 1
  ∧ files (script_raw host_ok (World (sample_files (Some archive_planting_report)) [])).2
      !! evaluation_path
    = Some (File (Text "planted"))
  ∧ trace (script_raw host_ok (World (sample_files (Some archive_planting_report)) [])).2
    = [Stdout "Starting evaluation."; Stdout "model.tar.gz"; Stdout "Loading model.";
       Mkdir output_dir;
       Truncate evaluation_path;
       Store evaluation_path (Text "planted");
       Truncate model_pkl;
       Store model_pkl
         (Pickled (PObj "Result" [("metrics", PDict [(PStr "valid-mae", PFloat 1.23)])]));
       Stdout "model.tar.gz"; Stdout "model.pkl"; Stdout "extracting metrics."].
Proof. repeat split; vm_compute; reflexivity. Qed.

(** C4.  Lines 74 and 75 make sure the output directory is there before the
    report is written.  In a file system that is a tree: when the directory
    exists, they change nothing, record nothing and do not fail, and lines 77
    to 80 run in the state as it was; when no regular file is in the way,
    the directory and every missing directory above it are made, nothing else
    changes, and lines 77 to 80 run in the state with these directories. *)
Theorem output_dir_ensured mae rmse w :
  fs_tree (files w) →
  (files w !! output_dir = Some Dir →
   build_and_write mae rmse w = write_report mae rmse w)
  ∧ ((∀ q, q `prefix_of` output_dir → is_file (files w !! q) = false) →
     ∃ wD made,
       build_and_write mae rmse w = write_report mae rmse wD
       ∧ (∀ q, files wD !! q = if decide (q `prefix_of` output_dir) then Some Dir
                               else files w !! q)
       ∧ trace wD = (trace w ++ map Mkdir made)%list
       ∧ Forall (λ q, q `prefix_of` output_dir) made).
Proof.
  intros Htree.
  assert (build_and_write mae rmse w
          = (pathlib_mkdir output_dir true true ;; write_report mae rmse) w) as -> by done.
  rewrite bind_run. split.
  - intros Hdir. unfold pathlib_mkdir.
    by rewrite mkdir_parents_existing by by rewrite rev_involutive.
  - intros Hfree.
    destruct (mkdir_parents_creates (rev output_dir) w Htree) as (wD & E & HwD).
    { by rewrite rev_involutive. }
    assert (pathlib_mkdir output_dir true true w = (Ok tt, wD)) as Emk by exact E.
    destruct (pathlib_mkdir_made _ _ _ _ _ Emk) as (made & Htr & Hmade).
    rewrite Emk. exists wD, made. split; [done|]. split; [|done].
    intros q. rewrite HwD. by rewrite rev_involutive.
Qed.

(** C4, where only the root directory exists. *)
Lemma output_dir_ensured_witness :
  ∃ wD, build_and_write (PFloat 1.23) (PFloat 4.56) (World {[ [] := Dir ]} [])
        = write_report (PFloat 1.23) (PFloat 4.56) wD
        ∧ files wD !! output_dir = Some Dir
        ∧ files wD !! ["opt"; "ml"] = Some Dir.
Proof.
  destruct (output_dir_ensured (PFloat 1.23) (PFloat 4.56) (World {[ [] := Dir ]} []))
    as (_ & Hmake).
  - apply (@bool_decide_unpack _ (fs_tree_dec _)). vm_compute. exact I.
  - destruct Hmake as (wD & made & E & HwD & _).
    + intros q _. cbn [files]. destruct (decide (q = [])) as [->|Hq].
      * reflexivity.
      * by rewrite lookup_singleton_ne.
    + exists wD. split; [exact E|]. rewrite !HwD. split; reflexivity.
Defined.

(** C5.  A run that ended normally has left [evaluation.json] holding a
    text, and running the script again on the file system it left, with the
    same archive still in place, ends normally and leaves exactly that file
    system again: the report is byte for byte the same.  The same holds
    whatever [evaluation.json] was changed to in between, so the text
    depends on the artifact and not on what the file held: the rerun
    overwrites it in full. *)
Theorem rerun_writes_same_report h w0 w1 :
  script h w0 = (Ok tt, w1) →
  files w1 !! model_path = files w0 !! model_path →
  ∃ text,
    files w1 !! evaluation_path = Some (File (Text text))
    ∧ (∀ tr, ∃ tr',
         script h (World (files w1) tr) = (Ok tt, World (files w1) tr')
         ∧ last tr' = Some (Store evaluation_path (Text text)))
    ∧ (∀ prior tr, ∃ tr',
         script h (World (<[evaluation_path:=File prior]> (files w1)) tr)
         = (Ok tt, World (files w1) tr')
         ∧ last tr' = Some (Store evaluation_path (Text text))).
Proof.
  intros Hrun Harchive.
  apply script_ok_inv in Hrun
    as (metrics & wL & mae & rmse & text & wD & Hload & Hmae & Hrmse & Htext & Hmk & _
        & Hfs1 & _).
  destruct (load_stage_ok_inv _ _ _ _ Hload)
    as (Hpip & Himp & Hdir & (members & wa & wb & Harch & _ & Hext & HwL) & Hpm).
  assert (HstepsL := mutates_run _ _ _ _ _ _ (mutates_load_stage h) Hload).
  assert (HstepsD := mutates_run _ _ _ _ _ _ (mutates_pathlib_mkdir output_dir true) Hmk).
  cbn [files] in HstepsD.
  assert (files wD !! output_dir = Some Dir) as Hod.
  { unfold pathlib_mkdir in Hmk. apply mkdir_parents_ok_dir in Hmk.
    by rewrite rev_involutive in Hmk. }
  assert (files w1 !! evaluation_path = Some (File (Text text))) as Hreport
    by (rewrite Hfs1; apply lookup_insert_eq).
  assert (∀ p, below_model p → files w1 !! p = files wL !! p) as Hbelow.
  { intros p Hp. rewrite Hfs1, lookup_insert_ne by (symmetry; by apply below_model_not_evaluation).
    eapply fs_steps_untouched; [done| |by intros []].
    by apply below_model_not_above_output. }
  assert (∀ prior tr, ∃ tr',
            script h (World (<[evaluation_path:=File prior]> (files w1)) tr)
            = (Ok tt, World (files w1) tr')
            ∧ last tr' = Some (Store evaluation_path (Text text))) as Hagain.
  { intros prior tr.
    set (fs := <[evaluation_path:=File prior]> (files w1)).
    assert (∀ p, p ≠ evaluation_path → fs !! p = files w1 !! p) as Hfs
      by (intros p Hp; unfold fs; by rewrite lookup_insert_ne).
    assert (∀ p, is_Some (files wb !! p) → is_Some (fs !! p)) as Hsome.
    { intros p Hp. unfold fs. apply lookup_insert_is_Some_keep.
      rewrite Hfs1. apply lookup_insert_is_Some_keep.
      eapply fs_steps_is_Some; [done|]. by rewrite HwL. }
    assert (∀ p, is_file (files wb !! p) = true → is_file (fs !! p) = true) as Hfile.
    { intros p Hp. unfold fs.
      destruct (decide (evaluation_path = p)) as [<-|Hne]; [by rewrite lookup_insert_eq|].
      rewrite lookup_insert_ne, Hfs1, lookup_insert_ne by done.
      eapply fs_steps_is_file; [done|]. by rewrite HwL. }
    destruct (load_stage_run h (World fs tr) members fs metrics) as [trL HloadL];
      try done.
    - cbn [files]. rewrite Hfs by done. rewrite Hfs1, lookup_insert_ne by done.
      eapply fs_steps_dir; [done|]. by eapply fs_steps_dir.
    - cbn [files]. rewrite Hfs by done. by rewrite Harchive.
    - intros tr0. cbn [files].
      destruct (extractall_again model_dir members wa wb (World fs tr0) Hext Hsome Hfile)
        as (t' & Ht' & Hw & Hnw).
      exists t'. split; [done|]. apply map_eq. intros p.
      destruct (written_dec model_dir members p) as [Hp|Hp]; [|by apply Hnw].
      rewrite Hw by done. apply written_below in Hp.
      rewrite Hfs by by apply below_model_not_evaluation.
      rewrite Hbelow by done. by rewrite HwL.
    - rewrite Hfs by done. rewrite Hfs1, lookup_insert_ne by done.
      eapply fs_steps_dir; [done|]. by eapply fs_steps_dir.
    - eapply pickled_metrics_ext; [done|].
      assert (below_model model_pkl) as Hpkl by by exists ["model.pkl"].
      rewrite Hfs by by apply below_model_not_evaluation. by apply Hbelow.
    - rewrite script_via_load, (bind_ok _ _ _ _ _ HloadL).
      destruct (report_stage_ok metrics mae rmse text (World fs trL) Hmae Hrmse Htext)
        as [evs ->].
      + left. cbn [files]. rewrite Hfs by done. by rewrite Hfs1, lookup_insert_ne.
      + cbn [files]. unfold fs. by rewrite lookup_insert_eq.
      + cbn [files trace]. eexists. split.
        * f_equal. f_equal.
          rewrite (insert_id fs output_dir Dir)
            by (rewrite Hfs by done; by rewrite Hfs1, lookup_insert_ne).
          unfold fs. rewrite insert_insert_eq. by apply insert_id.
        * replace (trL ++ evs ++ [rmse_log_event rmse; Truncate evaluation_path;
                                  Store evaluation_path (Text text)])%list
            with ((trL ++ evs ++ [rmse_log_event rmse; Truncate evaluation_path])
                  ++ [Store evaluation_path (Text text)])%list
            by (by rewrite <- !app_assoc).
          apply last_snoc. }
  exists text. split; [done|]. split; [|done].
  intros tr. destruct (Hagain (Text text) tr) as (tr' & E & Hlast).
  exists tr'. split; [|done]. by rewrite insert_id in E.
Qed.

(** C5, on the sample: the second run, started from what the first left
    with [evaluation.json] emptied in between, writes the same report. *)
Lemma rerun_writes_same_report_witness :
  ∃ tr',
    script host_ok
      (World (<[evaluation_path:=File (Text "")]>
                (files (script host_ok
                          (sample_world (sample_result (PFloat 1.23) (PFloat 4.56)))).2))
             [])
    = (Ok tt,
       World (files (script host_ok
                       (sample_world (sample_result (PFloat 1.23) (PFloat 4.56)))).2)
             tr').
Proof.
  destruct (rerun_writes_same_report host_ok
              (sample_world (sample_result (PFloat 1.23) (PFloat 4.56)))
              (script host_ok (sample_world (sample_result (PFloat 1.23) (PFloat 4.56)))).2)
    as (text & _ & _ & Hagain).
  - vm_compute. reflexivity.
  - vm_compute. reflexivity.
  - destruct (Hagain (Text "") []) as (tr' & E & _). exists tr'. exact E.
Defined.

(** A failing operation ends the run with its exception. *)
Lemma fails_in_script op h w e w1 : fails_in op h w e w1 → script h w = (Raise e, w1).
Proof.
  destruct op; simpl.
  - intros (w0 & H0 & H1).
    rewrite script_via_before_extract, (bind_ok _ _ _ _ _ H0).
    by rewrite (bind_raise _ _ _ _ _ H1).
  - intros (w0 & H0 & H1).
    rewrite script_via_before_load, (bind_ok _ _ _ _ _ H0).
    revert H1. rewrite !bind_run, load_result_metrics_run.
    destruct (pickled_metrics (files w0)) as [metrics|]; [|by intros [= -> ->]].
    intros H1. unfold report_stage. by rewrite (bind_raise _ _ _ _ _ H1).
  - intros (found & w0 & H0 & H1).
    by rewrite script_via_lookup, (bind_ok _ _ _ _ _ H0).
Qed.

(** C6.  Whichever of the three operations fails, the exception it raises
    is the outcome of the run, in the state the operation left: nothing
    catches it, and the exit status is not 0. *)
Theorem failures_are_fatal op h w e w1 :
  fails_in op h w e w1 →
  script h w = (Raise e, w1) ∧ exit_status (script h w).1 ≠ 0.
Proof. intros H. rewrite (fails_in_script _ _ _ _ _ H). done. Qed.

(** C6, on an archive that is not a gzip stream. *)
Lemma failures_are_fatal_witness :
  script host_ok (World (sample_files (Some (Text "not an archive"))) []) =
    (Raise ReadError,
     (script host_ok (World (sample_files (Some (Text "not an archive"))) [])).2)
  ∧ exit_status (script host_ok (World (sample_files (Some (Text "not an archive"))) [])).1 ≠ 0.
Proof.
  apply (failures_are_fatal Extract). simpl.
  exists (before_extract host_ok (World (sample_files (Some (Text "not an archive"))) [])).2.
  split; vm_compute; reflexivity.
Defined.

(** C7, as amended.  On every run that ends normally and whose rmse value
    [%f] can format (a float, a bool, an int in the range of a float), the
    line [Writing out evaluation report with rmse: <rmse>] goes to standard
    output before [evaluation.json] is written: the line, the opening of the
    file and the writing of the report are the last three things the run
    does, in this order. *)
Theorem rmse_logged_before_write h w w' metrics wL rmse s :
  script h w = (Ok tt, w') →
  load_stage h w = (Ok metrics, wL) →
  py_getitem metrics "valid-rmse" = Ok rmse →
  format_f rmse = Ok s →
  ∃ earlier text,
    trace w' = (trace w ++ earlier
                ++ [Stdout ("Writing out evaluation report with rmse: " ++ s);
                    Truncate evaluation_path;
                    Store evaluation_path (Text text)])%list
    ∧ files w' !! evaluation_path = Some (File (Text text)).
Proof.
  intros Hrun Hload Hrmse Hfmt.
  apply script_ok_inv in Hrun
    as (metrics' & wL' & mae & rmse' & text & wD & Hload' & _ & Hrmse' & _ & Hmk & _ & Hfs
        & Htrace).
  rewrite Hload in Hload'. injection Hload' as <- <-.
  rewrite Hrmse in Hrmse'. injection Hrmse' as <-.
  destruct (acts_at_run _ _ _ _ _ (acts_at_load_stage h) Hload) as (evsL & HtrL & _).
  destruct (acts_at_run _ _ _ _ _ (acts_at_pathlib_mkdir output_dir true) Hmk)
    as (evsD & HtrD & _).
  cbn [trace] in HtrD.
  exists (evsL ++ [Stdout "extracting metrics."] ++ evsD)%list, text. split.
  - rewrite Htrace, HtrD, HtrL. unfold rmse_log_event. rewrite Hfmt.
    by rewrite <- !app_assoc.
  - rewrite Hfs. apply lookup_insert_eq.
Qed.

(** C7, on the sample container. *)
Lemma rmse_logged_before_write_witness :
  ∃ earlier text,
    trace (script host_ok (sample_world (sample_result (PFloat 1.23) (PFloat 4.56)))).2
    = ([] ++ earlier ++ [Stdout "Writing out evaluation report with rmse: 4.560000";
                         Truncate evaluation_path; Store evaluation_path (Text text)])%list
    ∧ files (script host_ok (sample_world (sample_result (PFloat 1.23) (PFloat 4.56)))).2
        !! evaluation_path
      = Some (File (Text text)).
Proof.
  apply (rmse_logged_before_write host_ok
           (sample_world (sample_result (PFloat 1.23) (PFloat 4.56)))
           (script host_ok (sample_world (sample_result (PFloat 1.23) (PFloat 4.56)))).2
           (PDict [(PStr "train-rmse", PFloat 0.5); (PStr "valid-mae", PFloat 1.23);
                   (PStr "valid-rmse", PFloat 4.56)])
           (load_stage host_ok (sample_world (sample_result (PFloat 1.23) (PFloat 4.56)))).2
           (PFloat 4.56) "4.560000").
  - vm_compute. reflexivity.
  - vm_compute. reflexivity.
  - reflexivity.
  - vm_compute. reflexivity.
Defined.

(** C7 as stated fails: with [valid-rmse = 'n/a'] the run ends normally and
    writes the report, but [%f] cannot format the value; the logging handler
    reports the error on standard error and no line with the rmse value
    reaches standard output.  The same happens for a number that [%f] cannot
    format, an [int] beyond the range of a float. *)
Lemma rmse_line_missing_for_text_rmse :
  (script host_ok (sample_world (sample_result (PFloat 1.23) (PStr "n/a")))).1 = Ok tt
  ∧ trace (script host_ok (sample_world (sample_result (PFloat 1.23) (PStr "n/a")))).2
    = [Stdout "Starting evaluation."; Stdout "model.tar.gz"; Stdout "Loading model.";
       Truncate model_pkl;
       Store model_pkl (Pickled (sample_result (PFloat 1.23) (PStr "n/a")));
       Stdout "model.tar.gz"; Stdout "model.pkl"; Stdout "extracting metrics.";
       Mkdir output_dir;
       Stderr "--- Logging error ---";
       Truncate evaluation_path;
       Store evaluation_path (Text (report_text "1.23" (Json.encode_str "n/a")))]
  ∧ stdout_lines
      (trace (script host_ok (sample_world (sample_result (PFloat 1.23) (PStr "n/a")))).2)
    = ["Starting evaluation."; "model.tar.gz"; "Loading model."; "model.tar.gz";
       "model.pkl"; "extracting metrics."]
  ∧ (script host_ok (sample_world (sample_result (PFloat 1.23) (PInt (10 ^ 400))))).1 = Ok tt
  ∧ stdout_lines
      (trace (script host_ok
                (sample_world (sample_result (PFloat 1.23) (PInt (10 ^ 400))))).2)
    = ["Starting evaluation."; "model.tar.gz"; "Loading model."; "model.tar.gz";
       "model.pkl"; "extracting metrics."].
Proof. repeat split; vm_compute; reflexivity. Qed.

(** C8, as amended.  On an archive none of whose member names leads out of
    the model directory: when the extraction fails, or the lookup of a metric fails, the run ends with
    that exception and nothing outside the branch of the model directory has
    changed: the output directory and everything below it are as they were,
    and every directory the run made and every file it wrote is on that
    branch, so the run has not created the output directory. *)
Theorem early_failure_leaves_output_untouched h w e w1 :
  confined_archive (files w) →
  (∃ w0, before_extract h w = (Ok tt, w0) ∧ extract_raw w0 = (Raise e, w1))
  ∨ (∃ metrics wL, load_stage_raw h w = (Ok metrics, wL)
                   ∧ lookup_metrics metrics wL = (Raise e, w1)) →
  script_raw h w = (Raise e, w1)
  ∧ files w1 !! output_dir = files w !! output_dir
  ∧ (∀ p, output_dir `prefix_of` p → files w1 !! p = files w !! p)
  ∧ (∀ p, ¬ near model_dir p → files w1 !! p = files w !! p)
  ∧ ∃ evs, trace w1 = (trace w ++ evs)%list
           ∧ Forall (event_at (near model_dir)) evs
           ∧ (Mkdir output_dir ∉ evs).
Proof.
  intros Hconf H.
  assert (script_raw h w = (Raise e, w1)
          ∧ fs_steps (near model_dir) below_model (files w) (files w1)
          ∧ ∃ evs, trace w1 = (trace w ++ evs)%list ∧ Forall (event_at (near model_dir)) evs)
    as (E & Hsteps & evs & Htr & Hevs).
  { destruct H as [(w0 & H0 & H1)|(metrics & wL & Hload & Hlook)].
    - assert (files w0 = files w) as Hfs0.
      { rewrite <- (before_extract_files h w). by rewrite H0. }
      split.
      { by rewrite script_raw_via_before_extract, (bind_ok _ _ _ _ _ H0),
          (bind_raise _ _ _ _ _ H1). }
      destruct (acts_at_run _ _ _ _ _ (acts_at_before_extract (near model_dir) h) H0)
        as (evs0 & Htr0 & Hevs0).
      destruct (extract_raw_confined w0) as (Hsteps1 & evs1 & Htr1 & Hevs1);
        [by rewrite Hfs0|].
      rewrite H1 in Hsteps1, Htr1. cbn [snd] in Hsteps1, Htr1. split.
      + by rewrite <- Hfs0.
      + exists (evs0 ++ evs1)%list. split; [by rewrite Htr1, Htr0, app_assoc|].
        by apply Forall_app.
    - destruct (load_stage_raw_confined h w Hconf) as (HstepsL & evsL & HtrL & HevsL).
      rewrite Hload in HstepsL, HtrL. cbn [snd] in HstepsL, HtrL. split; [|split].
      + rewrite script_raw_via_load, (bind_ok _ _ _ _ _ Hload).
        unfold report_stage. by rewrite (bind_raise _ _ _ _ _ Hlook).
      + assert (files w1 = files wL) as ->; [|done].
        revert Hlook. rewrite lookup_metrics_run. cbn zeta.
        repeat case_match; intros [= <- <-]; done.
      + destruct (acts_at_run _ _ _ _ _ (acts_at_lookup_metrics (near model_dir) metrics) Hlook)
          as (evs1 & Htr1 & Hevs1).
        exists (evsL ++ evs1)%list. split; [by rewrite Htr1, HtrL, app_assoc|].
        by apply Forall_app. }
  split; [done|].
  assert (∀ p, ¬ near model_dir p → files w1 !! p = files w !! p) as Hframe.
  { intros p Hp. eapply fs_steps_untouched; [done..|]. intros Hb. apply Hp. by left. }
  split; [|split; [|split; [done|]]].
  - apply Hframe, output_dir_not_near.
  - intros p Hp. by apply Hframe, below_output_not_near.
  - exists evs. split; [done|]. split; [done|]. by apply no_event_at_output.
Qed.

(** C8, on an archive whose only member is to go below [model.tar.gz],
    which is a regular file: the extraction fails. *)
Lemma early_failure_leaves_output_untouched_witness :
  ∃ e w1,
    script_raw host_ok
      (World (sample_files (Some (TarGz [(["model.tar.gz"; "x"], TReg (Text "x"))]))) [])
    = (Raise e, w1)
    ∧ files w1 !! output_dir = None.
Proof.
  destruct (early_failure_leaves_output_untouched host_ok
              (World (sample_files (Some (TarGz [(["model.tar.gz"; "x"], TReg (Text "x"))]))) [])
              (NotADirectoryError (model_path ++ ["x"])%list)
              (script_raw host_ok
                 (World (sample_files
                           (Some (TarGz [(["model.tar.gz"; "x"], TReg (Text "x"))]))) [])).2)
    as (E & Hout & _).
  - vm_compute. reflexivity.
  - left.
    exists (before_extract host_ok
              (World (sample_files
                        (Some (TarGz [(["model.tar.gz"; "x"], TReg (Text "x"))]))) [])).2.
    split; vm_compute; reflexivity.
  - eexists _, _. split; [exact E|]. rewrite Hout. vm_compute. reflexivity.
Defined.

(** C8 as stated fails.  The archive names a directory member
    [../evaluation]: [extractall] makes the output directory.  In the first
    run the metrics lack [valid-rmse] and the lookup fails; in the second the
    next member is to go below [model.tar.gz] and the extraction fails.
    Either way the output directory, which was not there before, has been
    created by the run. *)
Lemma failed_run_after_output_dir_member :
  files (World (sample_files
                  (Some (archive_making_output_dir
                           [(["model.pkl"],
                             TReg (Pickled (PObj "Result"
                                              [("metrics",
                                                PDict [(PStr "valid-mae", PFloat 1.23)])])))])))
               []) !! output_dir = None
  ∧ script_raw host_ok
      (World (sample_files
                (Some (archive_making_output_dir
                         [(["model.pkl"],
                           TReg (Pickled (PObj "Result"
                                            [("metrics",
                                              PDict [(PStr "valid-mae", PFloat 1.23)])])))])))
             [])
    = (Raise (KeyError "valid-rmse"),
       World (<[model_pkl:=File (Pickled (PObj "Result"
                                            [("metrics",
                                              PDict [(PStr "valid-mae", PFloat 1.23)])]))]>
                (<[output_dir:=Dir]>
                   (sample_files
                      (Some (archive_making_output_dir
                               [(["model.pkl"],
                                 TReg (Pickled (PObj "Result"
                                                  [("metrics",
                                                    PDict [(PStr "valid-mae",
                                                            PFloat 1.23)])])))])))))
             [Stdout "Starting evaluation."; Stdout "model.tar.gz"; Stdout "Loading model.";
              Mkdir output_dir;
              Truncate model_pkl;
              Store model_pkl
                (Pickled (PObj "Result" [("metrics", PDict [(PStr "valid-mae", PFloat 1.23)])]));
              Stdout "model.tar.gz"; Stdout "model.pkl"; Stdout "extracting metrics."])
  ∧ script_raw host_ok
      (World (sample_files
                (Some (archive_making_output_dir [(["model.tar.gz"; "x"], TReg (Text "x"))])))
             [])
    = (Raise (NotADirectoryError (model_path ++ ["x"])%list),
       World (<[output_dir:=Dir]>
                (sample_files
                   (Some (archive_making_output_dir
                            [(["model.tar.gz"; "x"], TReg (Text "x"))]))))
             [Stdout "Starting evaluation."; Stdout "model.tar.gz"; Stdout "Loading model.";
              Mkdir output_dir]).
Proof. repeat split; vm_compute; reflexivity. Qed.






(** * Further properties of the script *)

(** ** What the stages log *)

Lemma for_each_log_exact names w :
  for_each names (λ file, logger_log file []) w
  = (Ok tt, World (files w) (trace w ++ map Stdout names)).
Proof.
  revert w. induction names as [|x names IH]; intros w; simpl.
  - rewrite app_nil_r. by destruct w.
  - rewrite bind_run. cbn [logger_log emit]. rewrite IH. cbn [files trace].
    by rewrite <- app_assoc.
Qed.

Lemma announce_exact w :
  announce w =
    match files w !! model_dir with
    | Some Dir =>
        (Ok tt, World (files w) (trace w ++ announce_lines (children (files w) model_dir)))
    | Some (File _) =>
        (Raise (NotADirectoryError model_dir),
         World (files w) (trace w ++ [Stdout "Starting evaluation."]))
    | None =>
        (Raise (no_entry (files w) model_dir),
         World (files w) (trace w ++ [Stdout "Starting evaluation."]))
    end.
Proof.
  unfold announce, logger_debug, logger_info. rewrite bind_run. cbn [logger_log emit].
  rewrite bind_run, os_listdir_run. cbn [files].
  destruct (files w !! model_dir) as [[|]|]; [|done..].
  rewrite bind_run, for_each_log_exact. unfold announce_lines, emit.
  cbn [files trace]. by rewrite <- !app_assoc.
Qed.

Lemma relist_exact w :
  relist w =
    match files w !! model_dir with
    | Some Dir =>
        (Ok tt, World (files w) (trace w ++ map Stdout (children (files w) model_dir)))
    | Some (File _) => (Raise (NotADirectoryError model_dir), w)
    | None => (Raise (no_entry (files w) model_dir), w)
    end.
Proof.
  unfold relist, logger_debug. rewrite bind_run, os_listdir_run.
  destruct (files w !! model_dir) as [[|]|]; [|done..].
  apply for_each_log_exact.
Qed.

(** X2.  When the model directory is missing or is not a directory, the
    run dies at the [os.listdir] of line 37, of [FileNotFoundError] or
    [NotADirectoryError], after logging [Starting evaluation.] and nothing
    else; the file system is not touched. *)
Theorem model_dir_unusable h w :
  pip_returncode h = 0 → imports_resolve h = true →
  is_dir (files w !! model_dir) = false →
  script h w
  = (Raise match files w !! model_dir with
           | Some _ => NotADirectoryError model_dir
           | None => no_entry (files w) model_dir
           end,
     World (files w) (trace w ++ [Stdout "Starting evaluation."])).
Proof.
  intros Hpip Himp Hdir. unfold script. rewrite bind_run, bootstrap_run, Hpip, Himp.
  cbn [Z.eqb]. unfold main. rewrite bind_run, announce_exact.
  by destruct (files w !! model_dir) as [[|]|].
Qed.

Lemma model_dir_unusable_witness :
  script host_ok (World {[ [] := Dir ]} [])
  = (Raise (FileNotFoundError model_dir),
     World {[ [] := Dir ]} [Stdout "Starting evaluation."]).
Proof.
  rewrite (model_dir_unusable host_ok (World {[ [] := Dir ]} [])) by reflexivity.
  vm_compute. reflexivity.
Defined.



(** ** What the extraction leaves and what is loaded *)







(** ** Failures between the extraction and the report *)

(** X7.  When the run reaches line 51 and [model.pkl] cannot be turned into
    metrics, the run ends there with the exception of that step, in the state
    the second listing left: [FileNotFoundError] (or [NotADirectoryError])
    without the file, [IsADirectoryError] for a directory of that name,
    [AttributeError] when the loaded object has no attribute [metrics], and
    the exception of the loader for a file that is no pickle. *)
Theorem pickle_failure_ends_run h w w0 e :
  before_load h w = (Ok tt, w0) →
  pickled_metrics (files w0) = Raise e →
  script h w = (Raise e, w0)
  ∧ match files w0 !! model_pkl with
    | None => e = no_entry (files w0) model_pkl
    | Some Dir => e = IsADirectoryError model_pkl
    | Some (File (Pickled _)) => e = AttributeError "metrics"
    | Some (File _) => True
    end.
Proof.
  intros Hbefore Hpm. split.
  - rewrite script_via_before_load, (bind_ok _ _ _ _ _ Hbefore).
    by rewrite bind_run, load_result_metrics_run, Hpm.
  - unfold pickled_metrics in Hpm.
    destruct (files w0 !! model_pkl) as [[|[|v|]]|]; simpl in Hpm; try congruence; try done.
    unfold py_getattr in Hpm. repeat case_match; congruence.
Qed.

(** X7, on an archive that brings no [model.pkl]. *)
Lemma pickle_failure_ends_run_witness :
  script host_ok (World (sample_files (Some (TarGz []))) [])
  = (Raise (FileNotFoundError model_pkl),
     (before_load host_ok (World (sample_files (Some (TarGz []))) [])).2).
Proof.
  apply (pickle_failure_ends_run host_ok (World (sample_files (Some (TarGz []))) [])).
  - vm_compute. reflexivity.
  - vm_compute. reflexivity.
Defined.

(** X8.  [valid-mae] is looked up first.  A mapping without [valid-mae]
    ends the run with [KeyError('valid-mae')], also when [valid-rmse] is
    missing too; a mapping with [valid-mae] and without [valid-rmse] ends it
    with [KeyError('valid-rmse')]; and metrics that are not a mapping end it
    with a [TypeError].  In each case the log line of line 60 is the last
    thing the run does. *)
Theorem lookup_failure_kinds h w metrics wL :
  load_stage h w = (Ok metrics, wL) →
  match metrics with
  | PDict entries =>
      (dict_get entries "valid-mae" = None →
       script h w = (Raise (KeyError "valid-mae"),
                     World (files wL) (trace wL ++ [Stdout "extracting metrics."])))
      ∧ (is_Some (dict_get entries "valid-mae") →
         dict_get entries "valid-rmse" = None →
         script h w = (Raise (KeyError "valid-rmse"),
                       World (files wL) (trace wL ++ [Stdout "extracting metrics."])))
  | _ =>
      ∃ msg, script h w = (Raise (TypeError msg),
                           World (files wL) (trace wL ++ [Stdout "extracting metrics."]))
  end.
Proof.
  intros Hload.
  assert (script h w
          = match lookup_metrics metrics wL with
            | (Ok found, w1) => build_and_write found.1 found.2 w1
            | (Raise e, w1) => (Raise e, w1)
            end) as ->.
  { rewrite script_via_load, (bind_ok _ _ _ _ _ Hload). unfold report_stage.
    rewrite bind_run. by destruct (lookup_metrics metrics wL) as [[|] ?]. }
  rewrite lookup_metrics_run. cbn zeta.
  destruct metrics; simpl; eauto.
  split.
  - by intros ->.
  - by intros [v ->] ->.
Qed.

(** X8, on a mapping that has neither metric. *)
Lemma lookup_failure_kinds_witness :
  script host_ok
    (World (sample_files
              (Some (TarGz [(["model.pkl"],
                             TReg (Pickled (PObj "Result" [("metrics", PDict [])])))]))) [])
  = (Raise (KeyError "valid-mae"),
     World (files (load_stage host_ok
              (World (sample_files
                 (Some (TarGz [(["model.pkl"],
                                TReg (Pickled (PObj "Result" [("metrics", PDict [])])))]))) [])).2)
           (trace (load_stage host_ok
              (World (sample_files
                 (Some (TarGz [(["model.pkl"],
                                TReg (Pickled (PObj "Result" [("metrics", PDict [])])))]))) [])).2
            ++ [Stdout "extracting metrics."])).
Proof.
  apply (lookup_failure_kinds host_ok
           (World (sample_files
              (Some (TarGz [(["model.pkl"],
                             TReg (Pickled (PObj "Result" [("metrics", PDict [])])))]))) [])
           (PDict [])).
  - vm_compute. reflexivity.
  - reflexivity.
Defined.

(** ** Failures while the report is written *)



Lemma script_after_lookup h w metrics wL mae rmse :
  load_stage h w = (Ok metrics, wL) →
  py_getitem metrics "valid-mae" = Ok mae →
  py_getitem metrics "valid-rmse" = Ok rmse →
  script h w
  = build_and_write mae rmse (World (files wL) (trace wL ++ [Stdout "extracting metrics."])).
Proof.
  intros Hload Hmae Hrmse.
  rewrite script_via_load, (bind_ok _ _ _ _ _ Hload). unfold report_stage.
  by rewrite bind_run, lookup_metrics_run, Hmae, Hrmse.
Qed.



(** X10.  When a regular file is where the output directory should be,
    line 75 ends the run with [FileExistsError]: [exist_ok] only accepts a
    directory.  The rmse line is not logged and nothing is written; the file
    system is as the extraction left it. *)
Theorem output_dir_is_a_file h w metrics wL mae rmse :
  load_stage h w = (Ok metrics, wL) →
  py_getitem metrics "valid-mae" = Ok mae →
  py_getitem metrics "valid-rmse" = Ok rmse →
  is_file (files w !! output_dir) = true →
  script h w
  = (Raise (FileExistsError output_dir),
     World (files wL) (trace wL ++ [Stdout "extracting metrics."])).
Proof.
  intros Hload Hmae Hrmse Hout.
  assert (Hsteps := mutates_run _ _ _ _ _ _ (mutates_load_stage h) Hload).
  assert (files wL !! output_dir = files w !! output_dir) as Eout.
  { apply (fs_steps_untouched _ _ _ _ output_dir Hsteps);
      [apply output_dir_not_near | by apply below_output_not_model]. }
  rewrite (script_after_lookup _ _ _ _ _ _ Hload Hmae Hrmse), build_and_write_run.
  unfold pathlib_mkdir. rewrite mkdir_parents_rev_unfold. unfold try_except.
  rewrite os_mkdir_run, rev_involutive. cbn [files]. rewrite Eout.
  destruct (files w !! output_dir) as [[|content]|] eqn:E; try done.
  cbn -[rev]. rewrite bind_run, os_path_isdir_run. cbn [files]. by rewrite Eout.
Qed.

(** X10, with a regular file at the output directory. *)
Lemma output_dir_is_a_file_witness :
  script host_ok
    (World (<[output_dir:=File (Text "")]>
              (files (sample_world (sample_result (PInt 1) (PInt 2))))) [])
  = (Raise (FileExistsError output_dir),
     World (files (load_stage host_ok
              (World (<[output_dir:=File (Text "")]>
                        (files (sample_world (sample_result (PInt 1) (PInt 2))))) [])).2)
           (trace (load_stage host_ok
              (World (<[output_dir:=File (Text "")]>
                        (files (sample_world (sample_result (PInt 1) (PInt 2))))) [])).2
            ++ [Stdout "extracting metrics."])).
Proof.
  apply (output_dir_is_a_file host_ok
           (World (<[output_dir:=File (Text "")]>
                     (files (sample_world (sample_result (PInt 1) (PInt 2))))) [])
           (PDict [(PStr "train-rmse", PFloat 0.5); (PStr "valid-mae", PInt 1);
                   (PStr "valid-rmse", PInt 2)])
           _ (PInt 1) (PInt 2)).
  - vm_compute. reflexivity.
  - reflexivity.
  - reflexivity.
  - vm_compute. reflexivity.
Defined.

(** X11.  When [evaluation.json] is a directory, line 75 finds the output
    directory in place, line 77 logs the rmse line, and line 79 ends the run
    with [IsADirectoryError]: that log line announces a report that is not
    written.  The file system is as the extraction left it. *)
Theorem report_path_is_a_directory h w metrics wL mae rmse :
  fs_tree (files w) →
  load_stage h w = (Ok metrics, wL) →
  py_getitem metrics "valid-mae" = Ok mae →
  py_getitem metrics "valid-rmse" = Ok rmse →
  files w !! evaluation_path = Some Dir →
  script h w
  = (Raise (IsADirectoryError evaluation_path),
     World (files wL) (trace wL ++ [Stdout "extracting metrics."; rmse_log_event rmse])).
Proof.
  intros Htree Hload Hmae Hrmse Hdir.
  assert (Hsteps := mutates_run _ _ _ _ _ _ (mutates_load_stage h) Hload).
  assert (files w !! output_dir = Some Dir) as Hout.
  { change output_dir with (parent evaluation_path).
    apply fs_tree_parent; [done | by rewrite Hdir]. }
  assert (files wL !! output_dir = Some Dir) as HoutL by by eapply fs_steps_dir.
  assert (files wL !! evaluation_path = Some Dir) as HdirL by by eapply fs_steps_dir.
  rewrite (script_after_lookup _ _ _ _ _ _ Hload Hmae Hrmse), build_and_write_run.
  unfold pathlib_mkdir. rewrite mkdir_parents_existing by by rewrite rev_involutive.
  rewrite open_write_run. cbn [files trace]. rewrite HdirL.
  by rewrite <- app_assoc.
Qed.

(** X11, with a directory at the report path. *)
Lemma report_path_is_a_directory_witness :
  (script host_ok
     (World (<[evaluation_path:=Dir]>
               (<[output_dir:=Dir]>
                  (files (sample_world (sample_result (PInt 1) (PInt 2)))))) [])).1
  = Raise (IsADirectoryError evaluation_path).
Proof.
  rewrite (report_path_is_a_directory host_ok
             (World (<[evaluation_path:=Dir]>
                       (<[output_dir:=Dir]>
                          (files (sample_world (sample_result (PInt 1) (PInt 2)))))) [])
             (PDict [(PStr "train-rmse", PFloat 0.5); (PStr "valid-mae", PInt 1);
                     (PStr "valid-rmse", PInt 2)])
             (load_stage host_ok
                (World (<[evaluation_path:=Dir]>
                          (<[output_dir:=Dir]>
                             (files (sample_world (sample_result (PInt 1) (PInt 2)))))) [])).2
             (PInt 1) (PInt 2)).
  - reflexivity.
  - apply (@bool_decide_unpack _ (fs_tree_dec _)). vm_compute. exact I.
  - vm_compute. reflexivity.
  - reflexivity.
  - reflexivity.
  - vm_compute. reflexivity.
Defined.

(** ** A run that ends normally *)

(** X12.  Exit status 0 means the report is there.  A run that ends
    normally had a working setup, a model directory and an archive in it, and
    it leaves the output directory, a pickled result in [model.pkl] with an
    attribute [metrics], and in [evaluation.json] the report text with the
    JSON texts of that mapping's [valid-mae] and [valid-rmse]. *)
Theorem normal_exit_means_report h w w' :
  script h w = (Ok tt, w') →
  pip_returncode h = 0 ∧ imports_resolve h = true
  ∧ files w !! model_dir = Some Dir
  ∧ (∃ members, files w !! model_path = Some (File (TarGz members)))
  ∧ files w' !! output_dir = Some Dir
  ∧ ∃ v metrics mae rmse mae_text rmse_text,
      files w' !! model_pkl = Some (File (Pickled v))
      ∧ py_getattr v "metrics" = Ok metrics
      ∧ py_getitem metrics "valid-mae" = Ok mae
      ∧ py_getitem metrics "valid-rmse" = Ok rmse
      ∧ Json.dumps mae = Ok mae_text
      ∧ Json.dumps rmse = Ok rmse_text
      ∧ files w' !! evaluation_path
        = Some (File (Text (report_text mae_text rmse_text))).
Proof.
  intros Hrun.
  apply script_ok_inv in Hrun
    as (metrics & wL & mae & rmse & text & wD & Hload & Hmae & Hrmse & Htext & Hmk & _
        & Hfs & _).
  destruct (load_stage_ok_inv _ _ _ _ Hload)
    as (Hpip & Himp & Hdir & (members & _ & _ & Harch & _) & Hpm).
  assert (HstepsD := mutates_run _ _ _ _ _ _ (mutates_pathlib_mkdir output_dir true) Hmk).
  cbn [files] in HstepsD.
  do 3 (split; [done|]). split; [by exists members|]. split.
  - rewrite Hfs, lookup_insert_ne by done.
    unfold pathlib_mkdir in Hmk. apply mkdir_parents_ok_dir in Hmk.
    by rewrite rev_involutive in Hmk.
  - unfold pickled_metrics in Hpm.
    destruct (files wL !! model_pkl) as [[|[|v|]]|] eqn:Hpkl; try done.
    simpl in Hpm. rewrite dumps_report in Htext.
    destruct (Json.dumps mae) as [mae_text|] eqn:Emae; [|done].
    destruct (Json.dumps rmse) as [rmse_text|] eqn:Ermse; [|done].
    injection Htext as <-.
    exists v, metrics, mae, rmse, mae_text, rmse_text.
    split; [|by rewrite Hfs, lookup_insert_eq].
    rewrite Hfs, lookup_insert_ne by done.
    eapply fs_steps_keep; [done..|]. by intros [].
Qed.

(** X12, on the sample container. *)
Lemma normal_exit_means_report_witness :
  files (script host_ok (sample_world (sample_result (PFloat 1.5) (PInt 2)))).2 !! output_dir
  = Some Dir.
Proof.
  eapply (normal_exit_means_report host_ok
            (sample_world (sample_result (PFloat 1.5) (PInt 2)))).
  vm_compute. reflexivity.
Defined.

(** ** What a run can do to the file system *)

Lemma mutates_build_and_write mae rmse :
  mutates (λ p, p `prefix_of` evaluation_path) (eq evaluation_path)
          (build_and_write mae rmse).
Proof.
  intros w. rewrite build_and_write_run.
  assert (Hmk := mutates_pathlib_mkdir output_dir true w).
  assert (fs_steps (λ p, p `prefix_of` evaluation_path) (eq evaluation_path)
                   (files w) (files (pathlib_mkdir output_dir true true w).2)) as Hmk'.
  { eapply fs_steps_mono; [| |exact Hmk]; [|done].
    intros p Hp. trans output_dir; [exact Hp | by exists ["evaluation.json"]]. }
  destruct (pathlib_mkdir output_dir true true w) as [[[]|e] w1]; cbn [snd] in Hmk' |- *;
    [|done].
  eapply fs_steps_trans; [exact Hmk'|].
  rewrite open_write_run. cbn [files trace].
  destruct (files w1 !! evaluation_path) as [[|c]|] eqn:Hp.
  - constructor.
  - destruct (Json.dumps (report_dict mae rmse)); cbn [snd files].
    + rewrite insert_insert_eq. eapply steps_rewrite; [by rewrite Hp | done | constructor].
    + eapply steps_rewrite; [by rewrite Hp | done | constructor].
  - destruct (files w1 !! parent evaluation_path) as [[|]|]; try constructor.
    destruct (Json.dumps (report_dict mae rmse)); cbn [snd files];
      rewrite ?insert_insert_eq; (eapply steps_create; [done.. | constructor]).
Qed.

Lemma mutates_anywhere {A} C W (m : M A) : mutates C W m → mutates anywhere anywhere m.
Proof. by apply mutates_mono. Qed.

Lemma mutates_at_path {A} (p : path) (call : path → M A) :
  (∀ q, mutates anywhere anywhere (call q)) → mutates anywhere anywhere (at_path p call).
Proof.
  intros Hcall. unfold at_path. apply mutates_bind.
  - apply mutates_same. intros w. unfold resolve. rewrite bind_run. cbn.
    by destruct (walk (files w) [] p).
  - intros q. apply mutates_try_except; [apply Hcall | intros e; by apply mutates_same].
Qed.

Lemma mutates_os_path_exists_raw p : mutates anywhere anywhere (os_path_exists_raw p).
Proof.
  apply mutates_try_except; [|intros e; by apply mutates_same].
  apply mutates_at_path. intros q. apply mutates_same. intros w.
  by rewrite os_path_exists_run.
Qed.

Lemma mutates_os_mkdir_raw p : mutates anywhere anywhere (os_mkdir_raw p).
Proof. apply mutates_at_path. intros q. eapply mutates_anywhere, mutates_os_mkdir. Qed.

Lemma mutates_makedirs_raw_rev rp : mutates anywhere anywhere (makedirs_raw_rev rp).
Proof.
  induction rp as [|c head IH]; simpl makedirs_raw_rev; [apply mutates_os_mkdir_raw|].
  apply mutates_bind; [apply mutates_os_path_exists_raw|].
  intros [|]; [apply mutates_os_mkdir_raw|]. apply mutates_bind.
  - apply mutates_try_except; [done | intros; by apply mutates_same].
  - intros _. case_bool_decide; [by apply mutates_same | apply mutates_os_mkdir_raw].
Qed.

Lemma mutates_extractall_raw members dest :
  mutates anywhere anywhere (extractall_raw members dest).
Proof.
  apply mutates_for_each. intros member _. unfold extract_member_raw.
  apply mutates_bind; [apply mutates_os_path_exists_raw|]. intros upper_exists.
  apply mutates_bind; [apply mutates_unless, mutates_makedirs_raw_rev|].
  intros _. destruct (member.2) as [|content].
  - apply mutates_try_except; [apply mutates_os_mkdir_raw | intros; by apply mutates_same].
  - apply mutates_at_path. intros q. eapply mutates_anywhere, mutates_makefile.
Qed.

Lemma mutates_script_raw h : mutates anywhere anywhere (script_raw h).
Proof.
  unfold script_raw, main_raw.
  apply mutates_bind; [apply mutates_same, bootstrap_files|]; intros _.
  apply mutates_bind; [apply mutates_same, announce_files|]; intros _.
  apply mutates_bind.
  { apply mutates_bind; [|intros members; apply mutates_extractall_raw].
    apply mutates_same. intros w. rewrite tarfile_open_run. by repeat case_match. }
  intros _. apply mutates_bind; [apply mutates_same, relist_files|]; intros _.
  apply mutates_bind.
  { apply mutates_same. intros w. by rewrite load_result_metrics_run. }
  intros metrics. apply mutates_bind.
  { apply mutates_same. intros w. rewrite lookup_metrics_run. by repeat case_match. }
  intros found. eapply mutates_anywhere, mutates_build_and_write.
Qed.

Lemma script_raw_confined h w :
  confined_archive (files w) →
  fs_steps may_create may_rewrite (files w) (files (script_raw h w).2).
Proof.
  intros Hconf. rewrite script_raw_via_load. apply fs_steps_bind.
  - eapply fs_steps_mono; [| |by apply load_stage_raw_confined]; intros p Hp; by left.
  - intros metrics wL _. revert wL.
    change (mutates may_create may_rewrite (report_stage metrics)).
    unfold report_stage. apply mutates_bind.
    { apply mutates_same. intros w0. rewrite lookup_metrics_run. by repeat case_match. }
    intros found. eapply mutates_mono; [| |apply mutates_build_and_write].
    + intros p Hp. by right.
    + intros p <-. by right.
Qed.

(** X13.  Whatever the outcome of a run and whatever the names of the
    archive's members, [..] included, the run only adds to the file system:
    no entry is removed and none changes its kind.  When no member name
    leads out of the model directory, an entry outside the model directory other than
    [evaluation.json] keeps its content, and a path that is neither on the
    branch of the model directory nor on that of [evaluation.json] is as it
    was, present or not. *)
Theorem run_only_adds h w r w' :
  script_raw h w = (r, w') →
  (∀ p, is_Some (files w !! p) → is_Some (files w' !! p))
  ∧ (∀ p, is_dir (files w !! p) = true → is_dir (files w' !! p) = true)
  ∧ (∀ p, is_file (files w !! p) = true → is_file (files w' !! p) = true)
  ∧ (confined_archive (files w) →
     (∀ p n, files w !! p = Some n → ¬ below_model p → p ≠ evaluation_path →
             files w' !! p = Some n)
     ∧ (∀ p, ¬ near model_dir p → ¬ p `prefix_of` evaluation_path →
             files w' !! p = files w !! p)).
Proof.
  intros Hrun.
  assert (Hany := mutates_run _ _ _ _ _ _ (mutates_script_raw h) Hrun).
  split; [|split; [|split]].
  - intros p Hp. by eapply fs_steps_is_Some.
  - intros p Hp. apply is_dir_true in Hp. by rewrite (fs_steps_dir _ _ _ _ _ Hany Hp).
  - intros p Hp. by eapply fs_steps_is_file.
  - intros Hconf. assert (Hsteps := script_raw_confined h w Hconf).
    rewrite Hrun in Hsteps. cbn [snd] in Hsteps. split.
    + intros p n Hp Hb Hne. eapply fs_steps_keep; [done..|]. by intros [?|?].
    + intros p Hn He. eapply fs_steps_untouched; [done|..].
      * by intros [?|?].
      * intros [Hb| ->]; [apply Hn; by left | by apply He].
Qed.

(** X13, on a run that fails in the extraction, after a member with [..]
    in its name: the archive is still there. *)
Lemma run_only_adds_witness :
  is_file
    (files (script_raw host_ok
              (World (sample_files
                        (Some (TarGz [([".."; "a"], TReg (Text "x")); (["..";"a"; "b"], TDir)])))
                     [])).2
       !! model_path) = true.
Proof.
  destruct (run_only_adds host_ok
              (World (sample_files
                        (Some (TarGz [([".."; "a"], TReg (Text "x")); (["..";"a"; "b"], TDir)])))
                     [])
              _ _ (surjective_pairing _))
    as (_ & _ & Hfile & _).
  apply Hfile. vm_compute. reflexivity.
Defined.

(** ** What a run prints *)

Section quiet_facts.
Context {A : Type}.

Lemma quiet_silent (m : M A) : (∀ w, trace (m w).2 = trace w) → quiet m.
Proof. intros H w. exists []. by rewrite H, app_nil_r. Qed.

Lemma quiet_bind {B} (m : M A) (k : A → M B) :
  quiet m → (∀ a, quiet (k a)) → quiet (m ≫= k).
Proof.
  intros Hm Hk w. rewrite bind_run. destruct (Hm w) as (evs & E & Hevs).
  destruct (m w) as [[a|e] w0]; cbn [snd] in *; [|by exists evs].
  destruct (Hk a w0) as (evs' & E' & Hevs'). exists (evs ++ evs')%list.
  split; [by rewrite E', E, app_assoc | by apply Forall_app].
Qed.

Lemma quiet_try_except (m : M A) handles handler :
  quiet m → (∀ e, quiet (handler e)) → quiet (try_except m handles handler).
Proof.
  intros Hm Hh w. unfold try_except. destruct (Hm w) as (evs & E & Hevs).
  destruct (m w) as [[a|e] w0]; cbn [snd] in *; [by exists evs|].
  destruct (handles e); [|by exists evs].
  destruct (Hh e w0) as (evs' & E' & Hevs'). exists (evs ++ evs')%list.
  split; [by rewrite E', E, app_assoc | by apply Forall_app].
Qed.

Lemma quiet_run (m : M A) w r w' :
  quiet m → m w = (r, w') → ∃ evs, trace w' = (trace w ++ evs)%list ∧ Forall fs_event evs.
Proof. intros H E. specialize (H w). by rewrite E in H. Qed.

End quiet_facts.

Lemma quiet_for_each {A} (l : list A) (body : A → M unit) :
  (∀ x, quiet (body x)) → quiet (for_each l body).
Proof.
  intros H. induction l as [|x l IH]; simpl; [by apply quiet_silent|].
  apply quiet_bind; [apply H | by intros _].
Qed.

Lemma quiet_unless b (m : M unit) : quiet m → quiet (unless b m).
Proof. intros H. destruct b; simpl; [by apply quiet_silent | done]. Qed.

Lemma quiet_os_mkdir p : quiet (os_mkdir p).
Proof.
  intros w. rewrite os_mkdir_run.
  destruct (files w !! p); [exists []; by rewrite app_nil_r|].
  destruct (files w !! parent p) as [[|]|]; [|exists []; by rewrite app_nil_r..].
  exists [Mkdir p]. split; [done | by constructor].
Qed.

Lemma quiet_makefile p content : quiet (makefile p content).
Proof.
  intros w. rewrite makefile_run, open_write_run.
  assert (Forall fs_event [Truncate p; Store p content]) as Hevs by (by repeat constructor).
  destruct (files w !! p) as [[|]|]; cbn [snd trace].
  - exists []. by rewrite app_nil_r.
  - eexists. split; [by rewrite <- app_assoc | done].
  - destruct (files w !! parent p) as [[|]|]; cbn [snd trace];
      [|exists []; by rewrite app_nil_r..].
    eexists. split; [by rewrite <- app_assoc | done].
Qed.

Lemma quiet_makedir p : quiet (makedir p).
Proof. apply quiet_try_except; [apply quiet_os_mkdir | intros; by apply quiet_silent]. Qed.

Lemma quiet_makedirs_rev rp : quiet (makedirs_rev rp).
Proof.
  induction rp as [|c head IH]; simpl makedirs_rev; [apply quiet_os_mkdir|].
  apply quiet_bind; [by apply quiet_silent|]. intros head_exists.
  apply quiet_bind; [|intros _; apply quiet_os_mkdir].
  apply quiet_unless, quiet_try_except; [done | intros; by apply quiet_silent].
Qed.

Lemma quiet_mkdir_plain p exist_ok : quiet (mkdir_plain p exist_ok).
Proof.
  apply quiet_try_except; [apply quiet_os_mkdir|].
  intros e. destruct (is_FileNotFoundError e); [by apply quiet_silent|].
  apply quiet_bind; [by apply quiet_silent|].
  intros isdir. destruct (exist_ok && isdir); by apply quiet_silent.
Qed.

Lemma quiet_mkdir_parents_rev rp exist_ok : quiet (mkdir_parents_rev rp exist_ok).
Proof.
  revert exist_ok. induction rp as [|c rparent IH]; intros exist_ok;
    rewrite mkdir_parents_rev_unfold;
    (apply quiet_try_except; [apply quiet_os_mkdir|]);
    intros e; destruct (is_FileNotFoundError e);
    try (apply quiet_bind; [by apply quiet_silent|];
         intros isdir; destruct (exist_ok && isdir); by apply quiet_silent).
  - by apply quiet_silent.
  - apply quiet_bind; [apply IH | intros _; apply quiet_mkdir_plain].
Qed.

Lemma quiet_extractall members dest : quiet (extractall members dest).
Proof.
  apply quiet_for_each. intros member. unfold extract_member.
  apply quiet_bind; [by apply quiet_silent|]. intros upper_exists.
  apply quiet_bind; [apply quiet_unless, quiet_makedirs_rev|].
  intros _. destruct (member.2); [apply quiet_makedir | apply quiet_makefile].
Qed.

Lemma stdout_lines_app evs evs' :
  stdout_lines (evs ++ evs') = (stdout_lines evs ++ stdout_lines evs')%list.
Proof. apply omap_app. Qed.

Lemma stdout_lines_printed names : stdout_lines (map Stdout names) = names.
Proof. induction names as [|x names IH]; [done|]. simpl. by rewrite IH. Qed.

Lemma stdout_lines_quiet evs : Forall fs_event evs → stdout_lines evs = [].
Proof. induction 1 as [|[] evs H _ IH]; try done. Qed.

Lemma child_name_Some (p k : path) c : child_name p k = Some c ↔ k = (p ++ [c])%list.
Proof.
  revert k. induction p as [|a p IH]; intros k; simpl.
  - destruct k as [|b [|]]; split; intros H; by simplify_eq.
  - destruct k as [|b k]; [split; intros H; by simplify_eq|].
    case_bool_decide as Hab; [|split; intros H; by simplify_eq].
    rewrite IH. subst b. split; intros H; by simplify_eq.
Qed.

(** The names [os.listdir] gives are those of the entries in the
    directory. *)
Lemma elem_of_children fs (p : path) c : c ∈ children fs p ↔ is_Some (fs !! (p ++ [c])%list).
Proof.
  unfold children. rewrite list_elem_of_omap. split.
  - intros (k & Hk & Hc). apply child_name_Some in Hc as ->.
    apply list_elem_of_fmap in Hk as ([k n] & -> & Hk). apply elem_of_map_to_list in Hk.
    by exists n.
  - intros [n Hn]. exists (p ++ [c])%list. split; [|by apply child_name_Some].
    apply list_elem_of_fmap. exists ((p ++ [c])%list, n). split; [done|].
    by apply elem_of_map_to_list.
Qed.

(** What the run has recorded when line 56 is done. *)
Lemma load_stage_trace h w metrics wL :
  load_stage h w = (Ok metrics, wL) →
  ∃ evsE,
    Forall fs_event evsE
    ∧ trace wL = (trace w ++ announce_lines (children (files w) model_dir) ++ evsE
                  ++ map Stdout (children (files wL) model_dir))%list.
Proof.
  intros Hload.
  destruct (load_stage_ok_inv _ _ _ _ Hload)
    as (Hpip & Himp & Hdir & (members & _ & _ & Harch & _) & _).
  unfold load_stage in Hload. rewrite bind_run, bootstrap_run, Hpip, Himp in Hload.
  change (0 =? 0) with true in Hload. cbv beta iota in Hload.
  rewrite bind_run, announce_exact, Hdir in Hload. cbv beta iota in Hload.
  rewrite bind_run, extract_run in Hload. cbn [files] in Hload. rewrite Harch in Hload.
  set (wA := World (files w) (trace w ++ announce_lines (children (files w) model_dir)))
    in Hload.
  assert (HstepsE := mutates_extractall model_dir members wA).
  destruct (quiet_extractall members model_dir wA) as (evsE & HtrE & HevsE).
  destruct (extractall members model_dir wA) as [[[]|e] wE]; [|done].
  cbn [snd] in HstepsE, HtrE.
  assert (files wE !! model_dir = Some Dir) as HdirE by by eapply fs_steps_dir.
  rewrite bind_run, relist_exact, HdirE, load_result_metrics_run in Hload.
  cbn [files] in Hload. destruct (pickled_metrics (files wE)); [|done].
  injection Hload as _ <-. cbn [files trace]. exists evsE. split; [done|].
  rewrite HtrE. subst wA. cbn [trace]. by rewrite <- !app_assoc.
Qed.

(** X14.  What a run that ends normally prints, in order: [Starting
    evaluation.], the names in the model directory before the extraction
    (the archive among them), [Loading model.], the names in it after the
    extraction ([model.pkl] among them), [extracting metrics.] and the rmse
    line.  Standard error gets nothing, or the report of the logging module
    when the rmse line cannot be formatted. *)
Theorem lines_of_a_normal_run h w w' metrics wL rmse :
  script h w = (Ok tt, w') →
  load_stage h w = (Ok metrics, wL) →
  py_getitem metrics "valid-rmse" = Ok rmse →
  ∃ evs,
    trace w' = (trace w ++ evs)%list
    ∧ stdout_lines evs
      = ("Starting evaluation." :: children (files w) model_dir
         ++ "Loading model." :: children (files wL) model_dir
         ++ "extracting metrics." :: stdout_lines [rmse_log_event rmse])%list
    ∧ "model.tar.gz" ∈ children (files w) model_dir
    ∧ "model.pkl" ∈ children (files wL) model_dir
    ∧ (∀ text, Stderr text ∈ evs → rmse_log_event rmse = Stderr text).
Proof.
  intros Hrun Hload Hrmse.
  apply script_ok_inv in Hrun
    as (metrics' & wL' & mae & rmse' & text & wD & Hload' & _ & Hrmse' & _ & Hmk & _ & _
        & Htrace).
  rewrite Hload in Hload'. injection Hload' as <- <-.
  rewrite Hrmse in Hrmse'. injection Hrmse' as <-.
  destruct (load_stage_trace _ _ _ _ Hload) as (evsE & HevsE & HtrL).
  destruct (load_stage_ok_inv _ _ _ _ Hload)
    as (_ & _ & _ & (members & _ & _ & Harch & _) & Hpm).
  unfold pathlib_mkdir in Hmk.
  destruct (quiet_run _ _ _ _ (quiet_mkdir_parents_rev _ _) Hmk) as (evsD & HtrD & HevsD).
  cbn [trace] in HtrD.
  exists (announce_lines (children (files w) model_dir) ++ evsE
          ++ map Stdout (children (files wL) model_dir)
          ++ [Stdout "extracting metrics."] ++ evsD
          ++ [rmse_log_event rmse; Truncate evaluation_path;
              Store evaluation_path (Text text)])%list.
  split; [|split; [|split; [|split]]].
  - rewrite Htrace, HtrD, HtrL. by rewrite <- !app_assoc.
  - unfold announce_lines.
    rewrite !stdout_lines_app, (stdout_lines_quiet evsE), (stdout_lines_quiet evsD) by done.
    simpl. rewrite stdout_lines_app, !stdout_lines_printed. simpl.
    by rewrite <- !app_assoc.
  - apply elem_of_children. fold model_path. by rewrite Harch.
  - apply elem_of_children. fold model_pkl. unfold pickled_metrics in Hpm.
    by destruct (files wL !! model_pkl).
  - intros msg Hin. unfold announce_lines in Hin.
    assert (∀ l, Forall fs_event l → Stderr msg ∉ l) as Hq.
    { intros l Hl Hin'. by apply (proj1 (Forall_forall _ _) Hl) in Hin'. }
    pose proof (Hq evsE HevsE). pose proof (Hq evsD HevsD).
    repeat (rewrite elem_of_app in Hin || rewrite elem_of_cons in Hin).
    rewrite !list_elem_of_fmap, !elem_of_nil in Hin.
    repeat match goal with
           | H : _ ∨ _ |- _ => destruct H
           | H : ∃ _, _ |- _ => destruct H as (? & ? & ?)
           end; done.
Qed.

(** X14, on the sample container. *)
Lemma lines_of_a_normal_run_witness :
  ∃ evs,
    trace (script host_ok (sample_world (sample_result (PFloat 1.5) (PFloat 0.25)))).2
    = evs
    ∧ stdout_lines evs
      = ["Starting evaluation."; "model.tar.gz"; "Loading model."; "model.tar.gz";
         "model.pkl"; "extracting metrics.";
         "Writing out evaluation report with rmse: 0.250000"].
Proof.
  destruct (lines_of_a_normal_run host_ok
              (sample_world (sample_result (PFloat 1.5) (PFloat 0.25)))
              (script host_ok (sample_world (sample_result (PFloat 1.5) (PFloat 0.25)))).2
              (PDict [(PStr "train-rmse", PFloat 0.5); (PStr "valid-mae", PFloat 1.5);
                      (PStr "valid-rmse", PFloat 0.25)])
              (load_stage host_ok
                 (sample_world (sample_result (PFloat 1.5) (PFloat 0.25)))).2
              (PFloat 0.25))
    as (evs & Htr & Hlines & _).
  - vm_compute. reflexivity.
  - vm_compute. reflexivity.
  - reflexivity.
  - exists evs. split; [exact Htr|]. rewrite Hlines. vm_compute. reflexivity.
Defined.
